(** * WILL stroke payloads: a model of [willparser.WillParser]

    The binary decoding path of [src/willparser/willparser.py]
    ([__read_will_paths], [__read_packed_sint32],
    [__decode_will_coordinates], [__decode_delta_encoded]) is embedded
    function by function, loops as folds over the iterated sequence with
    the loop variables as explicit state, and Python exceptions as an
    error result. *)

From Stdlib Require Import ZArith List Lia.
From Stdlib Require Import Floats.SpecFloat.
From Stdlib.Strings Require Import Byte.
From Stdlib Require DecimalString.
From stdpp Require Import list strings.
From Equations.Prop Require Import Equations Logic.
Import ListNotations.

Open Scope Z_scope.

(** ** Python values *)

(** Iterating over a [bytes] object yields ints in [0, 255]. *)
Definition byte_to_Z (b : byte) : Z := Z.of_N (Byte.to_N b).

(** The exceptions of the decoding path: [IndexError] from list
    subscripts, [OverflowError] and [ZeroDivisionError] from the division
    of two ints, and whatever the protobuf3 library raises on a record it
    cannot parse. *)
Inductive exn : Set :=
| IndexError
| ParseError
| OverflowError
| ZeroDivisionError.

Inductive result (A : Type) : Type :=
| Ok (a : A)
| Raise (e : exn).
Arguments Ok {A} a.
Arguments Raise {A} e.

#[global] Instance result_ret : MRet result := fun A a => Ok a.

#[global] Instance result_bind : MBind result := fun A B k r =>
  match r with
  | Ok a => k a
  | Raise e => Raise e
  end.

(** [xs[i]] for a non-negative [i]. *)
Definition index {A : Type} (xs : list A) (i : nat) : result A :=
  match xs !! i with
  | Some x => Ok x
  | None => Raise IndexError
  end.

(** [for x in xs: s = body(s, x)], stopping at the first exception. *)
Fixpoint for_each {S A : Type} (body : S -> A -> result S) (xs : list A) (s : S)
  : result S :=
  match xs with
  | [] => Ok s
  | x :: xs' => s' ← body s x; for_each body xs' s'
  end.

(** [for i in range(0, len(xs)): xs[i] = f(xs[i])], the list rewritten in
    place from the first element on; an exception ends the loop, and the
    list, local to the call, is lost with it. *)
Fixpoint map_result {A B : Type} (f : A -> result B) (xs : list A)
  : result (list B) :=
  match xs with
  | [] => Ok []
  | x :: xs' => y ← f x; ys ← map_result f xs'; Ok (y :: ys)
  end.

(** Python's float and the two operations the decoders apply to it: true
    division [a / b] of two ints, which raises, and [numpy.average] of a
    list, which does not.  The decoders are written against this
    interface; [Binary64] below is the float of Python. *)
Class PyFloat : Type := {
  float : Type;
  truediv : Z -> Z -> result float;
  average : list float -> float
}.

(** ** [__read_packed_sint32] *)

Module Packed.

(** The loop variables of [__read_packed_sint32]. *)
Record state : Type := { _ints : list Z; __l : Z; __i : Z }.

Definition init : state := {| _ints := []; __l := 0; __i := 0 |}.

(** [(__l >> 1) ^ -(__l & 1)] *)
Definition zigzag (l : Z) : Z := Z.lxor (Z.shiftr l 1) (- Z.land l 1).

(** One iteration of [for _b in payload]. *)
Definition step (s : state) (_b : byte) : state :=
  let b := byte_to_Z _b in
  if Z.land b 0x80 =? 0x80 then
    {| _ints := _ints s;
       __l := __l s + Z.shiftl (Z.land b 0x7F) (7 * __i s);
       __i := __i s + 1 |}
  else
    let l := __l s + Z.shiftl (Z.land b 0x7F) (7 * __i s) in
    let _n := zigzag l in
    {| _ints := _ints s ++ [_n]; __l := 0; __i := 0 |}.

End Packed.

Definition __read_packed_sint32 (payload : list byte) : list Z :=
  Packed._ints (fold_left Packed.step payload Packed.init).

(** ** The framing loop of [__read_will_paths] *)

Module Framing.

(** The loop variables of the first loop of [__read_will_paths]. *)
Record state : Type :=
  { _l : Z; __l : Z; _paths : list (list byte); __i : Z }.

Definition init : state := {| _l := 0; __l := 0; _paths := []; __i := 0 |}.

(** The loop variables once a sub-record is complete and [ps] have been
    collected: nothing left to copy, accumulator and shift index reset. *)
Definition between (ps : list (list byte)) : state :=
  {| _l := 0; __l := 0; _paths := ps; __i := 0 |}.

(** One iteration of [for b in payload].  [_paths[len(_paths) - 1]] on an
    empty list is [_paths[-1]], an [IndexError]; so is position [0] of the
    empty list, which the truncated subtraction gives here. *)
Definition step (s : state) (b : byte) : result state :=
  if _l s =? 0 then
    if Z.land (byte_to_Z b) 0x80 =? 0x80 then
      Ok {| _l := _l s;
            __l := __l s + Z.shiftl (Z.land (byte_to_Z b) 0x7F) (7 * __i s);
            _paths := _paths s;
            __i := __i s + 1 |}
    else
      let l := __l s + Z.shiftl (Z.land (byte_to_Z b) 0x7F) (7 * __i s) in
      Ok {| _l := l; __l := l; _paths := _paths s ++ [[]]; __i := __i s |}
  else
    let k := (length (_paths s) - 1)%nat in
    cur ← index (_paths s) k;
    Ok {| _l := _l s - 1;
          __l := 0;
          _paths := <[k := cur ++ [b]]> (_paths s);
          __i := 0 |}.

End Framing.

(** The sub-records [_paths] the first loop leaves behind. *)
Definition frame (payload : list byte) : result (list (list byte)) :=
  s ← for_each Framing.step payload Framing.init;
  Ok (Framing._paths s).

(** ** [__decode_will_coordinates] and [__decode_delta_encoded] *)

Section Decoders.
Context `{PyFloat}.

(** [pow(10, _precision)]; the precision is a [UInt32Field]. *)
Definition pow10 (_precision : N) : Z := 10 ^ Z.of_N _precision.

(** One iteration of [for i in range(2, _l)], on [(_points, _i)]. *)
Definition coordinates_step (_ints : list Z)
    (s : list (Z * Z) * nat) (i : nat) : result (list (Z * Z) * nat) :=
  let '(_points, _i) := s in
  prev ← index _points (i - 2);
  dx ← index _ints _i;
  dy ← index _ints (_i + 1);
  Ok (_points ++ [(fst prev + dx, snd prev + dy)], (_i + 2)%nat).

(** One iteration of [for i in range(0, len(_points))]:
    [_points[i][0] = _points[i][0] / _p], then the same for
    [_points[i][1]]. *)
Definition divide_point (_p : Z) (pt : Z * Z) : result (float * float) :=
  x ← truediv (fst pt) _p;
  y ← truediv (snd pt) _p;
  Ok (x, y).

(** A point is the two-element list [[x, y]], here a pair.
    [int(len(_ints) / 2)] is the floor of half the length; the second
    loop divides every coordinate in place. *)
Definition __decode_will_coordinates (_ints : list Z) (_precision : N)
  : result (list (float * float)) :=
  let _l := (length _ints / 2)%nat in
  let _p := pow10 _precision in
  x ← index _ints 0;
  y ← index _ints 1;
  s ← for_each (coordinates_step _ints) (seq 2 (_l - 2)) ([(x, y)], 2%nat);
  map_result (divide_point _p) (fst s).

(** One iteration of [for i in range(1, len(_ints))]:
    [_ints[i] = _ints[i - 1] + _ints[i]]. *)
Definition delta_step (_ints : list Z) (i : nat) : result (list Z) :=
  a ← index _ints (i - 1);
  b ← index _ints i;
  Ok (<[i := a + b]> _ints).

Definition __decode_delta_encoded (_ints : list Z) (_precision : N)
  : result (list float) :=
  let _p := pow10 _precision in
  _ints ← for_each delta_step (seq 1 (length _ints - 1)) _ints;
  map_result (fun v => truediv v _p) _ints.

End Decoders.

(** ** The records of [wacompath.Path] and the second loop of
    [__read_will_paths] *)

Module Path.

(** The fields added to [Path] in [wacompath.py], by field number
    1, 2, 3, 4, 5, 6 and 9. *)
Record t `{PyFloat} : Type := {
  startParameter : float;
  endParameter : float;
  decimalPrecision : N;
  points : list byte;
  strokeWidths : list byte;
  strokeColor : list byte;
  unknown : option Z
}.

End Path.

(** [_path_dict], with its keys ["points"], ["strokes"], ["avg_width"]
    and ["color"]. *)
Record _path_dict `{PyFloat} : Type := {
  points : list (float * float);
  strokes : list float;
  avg_width : float;
  color : list Z
}.

Section ReadWillPaths.
Context `{PyFloat}.

(** [Path().parse_from_bytes], of the protobuf3 library. *)
Variable parse_from_bytes : list byte -> result Path.t.

(** The body of [for _pth in _paths], after the record is parsed. *)
Definition read_path (p : Path.t) : result _path_dict :=
  let ints := __read_packed_sint32 (Path.points p) in
  points ← __decode_will_coordinates ints (Path.decimalPrecision p);
  let strokes := __read_packed_sint32 (Path.strokeWidths p) in
  strokes ← __decode_delta_encoded strokes (Path.decimalPrecision p);
  let _w := average strokes in
  let color := __read_packed_sint32 (Path.strokeColor p) in
  Ok {| points := points; strokes := strokes; avg_width := _w; color := color |}.

Definition __read_will_paths (payload : list byte) : result (list _path_dict) :=
  _paths ← frame payload;
  for_each (fun ret_paths _pth =>
              p ← parse_from_bytes _pth;
              _path_dict ← read_path p;
              Ok (ret_paths ++ [_path_dict]))
           _paths [].

End ReadWillPaths.

(** ** The encoder side of the wire format

    The repository only decodes.  The round-trip properties are stated
    against the protobuf wire encoding the payload is written in: base-128
    varints, least significant group first, and zigzag for sint32. *)

Module Wire.

(** The byte of value [n], for [n < 256]. *)
Definition byte_of_N (n : N) : byte :=
  match Byte.of_N n with
  | Some b => b
  | None => x00
  end.

(** Varint encoding: seven bits per byte, the top bit set on every byte
    but the last. *)
Equations? encode_varint (n : N) : list byte by wf (N.to_nat (N.log2 n)) lt :=
  encode_varint n with inspect (n <? 128)%N := {
    | exist _ true _ => [byte_of_N n];
    | exist _ false Hn => byte_of_N (128 + n mod 128) :: encode_varint (n / 128) }.
Proof.
  apply N.ltb_ge in Hn.
  change 128%N with (2 ^ 7)%N.
  rewrite <- N.shiftr_div_pow2, N.log2_shiftr.
  pose proof (N.log2_le_mono _ _ Hn) as Hlog.
  change (N.log2 128) with 7%N in Hlog.
  lia.
Qed.

(** Zigzag encoding of a sint32: [(v << 1) ^ (v >> 31)] on 32 bits. *)
Definition zigzag_encode (v : Z) : Z :=
  Z.lxor (Z.shiftl v 1) (Z.shiftr v 31) mod 2 ^ 32.

(** A sint32 on the wire. *)
Definition encode_sint32 (v : Z) : list byte :=
  encode_varint (Z.to_N (zigzag_encode v)).

(** Sub-records, each behind the varint of its length. *)
Definition encode_records (rs : list (list byte)) : list byte :=
  concat (map (fun r => encode_varint (N.of_nat (length r)) ++ r) rs).

End Wire.

(** The top bit of a byte, the continuation bit of a varint. *)
Definition continues (b : byte) : Prop := 128 <= byte_to_Z b.

(** ** The float of Python

    A Python float is an IEEE 754 binary64 number: the [spec_float] of the
    Standard Library at precision 53 and largest exponent 1024.  On two
    ints, [a / b] is the exact quotient rounded to the nearest float, ties
    to even, with the sign of the quotient also on a zero.  It raises
    [ZeroDivisionError] for [b = 0], and [OverflowError] when the quotient
    rounds beyond the largest float, which is from [2^1024 - 2^970] on. *)

Definition float_overflow : Z := 2 ^ 1024 - 2 ^ 970.

Definition truediv64 (a b : Z) : result spec_float :=
  if b =? 0 then Raise ZeroDivisionError
  else if float_overflow * Z.abs b <=? Z.abs a then Raise OverflowError
  else
    let '(q, e, l) := SFdiv_core_binary 53 1024 (Z.abs a) 0 (Z.abs b) 0 in
    Ok (binary_round_aux 53 1024 (xorb (a <? 0) (b <? 0)) q e l).

(** [float(n)] of an int within the range of a float: [n], rounded. *)
Definition float_of_Z (n : Z) : spec_float := binary_normalize 53 1024 n 0 false.

(** Python floats, over the [numpy.average] they are used with; numpy is
    not modelled, its average is a parameter. *)
Definition Binary64 (numpy_average : list spec_float -> spec_float) : PyFloat :=
  {| float := spec_float; truediv := truediv64; average := numpy_average |}.

(** The quotient [a / b] is in the range of a float. *)
Definition fits (a b : Z) : Prop := Z.abs a < float_overflow * Z.abs b.

(** [ints[0] + ... + ints[i]] *)
Definition prefix_sum (ints : list Z) (i : nat) : Z :=
  fold_right Z.add 0 (take (S i) ints).

(** ** Sample records *)

(** A stand-in for [numpy.average] in the samples: NaN for no values,
    else the sum from left to right over the count. *)
Definition sample_average (xs : list spec_float) : spec_float :=
  match xs with
  | [] => S754_nan
  | _ =>
      SFdiv 53 1024 (fold_left (SFadd 53 1024) xs (S754_zero false))
        (float_of_Z (Z.of_nat (length xs)))
  end.

#[global] Instance Sample64 : PyFloat := Binary64 sample_average.

(** Points [4, 6, 2, -2], widths [100, 10, -5], one color value. *)
Definition sample_path : Path.t (H := Sample64) :=
  {| Path.startParameter := float_of_Z 0; Path.endParameter := float_of_Z 1;
     Path.decimalPrecision := 2;
     Path.points := [x08; x0c; x04; x03];
     Path.strokeWidths := [xc8; x01; x14; x09];
     Path.strokeColor := [x02];
     Path.unknown := None |}.

(** [sample_path] with other values, 0.25 and 0.75, in the fields 1 and
    2, and a value in the field 9. *)
Definition sample_path_reparametrized : Path.t (H := Sample64) :=
  {| Path.startParameter := binary_normalize 53 1024 1 (-2) false;
     Path.endParameter := binary_normalize 53 1024 3 (-2) false;
     Path.decimalPrecision := 2;
     Path.points := [x08; x0c; x04; x03];
     Path.strokeWidths := [xc8; x01; x14; x09];
     Path.strokeColor := [x02];
     Path.unknown := Some (-7) |}.


(** ** Further vocabulary for the properties

    Not in the source: what the statements about the loops are written
    with. *)

(** The loop variables of the framing loop, with [ps] collected before. *)
Definition framing_prepend (ps : list (list byte)) (s : Framing.state)
  : Framing.state :=
  {| Framing._l := Framing._l s;
     Framing.__l := Framing.__l s;
     Framing._paths := ps ++ Framing._paths s;
     Framing.__i := Framing.__i s |}.

(** What the framing loop relies on: bytes left to copy mean a sub-record
    was opened. *)
Definition framing_inv (s : Framing.state) : Prop :=
  Framing._l s <> 0 -> Framing._paths s <> [].

(** [ints[off] + ints[2 + off] + ... + ints[2 * j + off]], one axis of
    the interleaved pairs. *)
Definition axis_sum (ints : list Z) (off j : nat) : Z :=
  fold_right Z.add 0
    (map (fun m => default 0 (ints !! (2 * m + off)%nat)) (seq 0 (S j))).

(** Delta encoding, the writer's side of [__decode_delta_encoded]: each
    value as its difference from the one before, the first from 0. *)
Fixpoint deltas (prev : Z) (xs : list Z) : list Z :=
  match xs with
  | [] => []
  | x :: xs' => (x - prev) :: deltas x xs'
  end.

Definition delta_encode (xs : list Z) : list Z := deltas 0 xs.

(** Every coordinate of the first [n] points, a running sum of its axis,
    is in the range of a float once divided by [10^p]. *)
Definition points_fit (ints : list Z) (p : N) (n : nat) : Prop :=
  forall j : nat,
    (j < n)%nat ->
    fits (axis_sum ints 0 j) (10 ^ Z.of_N p)
    /\ fits (axis_sum ints 1 j) (10 ^ Z.of_N p).

(** Every prefix sum is in the range of a float once divided by [10^p]. *)
Definition scalars_fit (ints : list Z) (p : N) : Prop :=
  forall i : nat,
    (i < length ints)%nat -> fits (prefix_sum ints i) (10 ^ Z.of_N p).

(** Three points, [4, 6, 2, -2, 0, 4], and three widths, [100, 10, -5]. *)
Definition sample_path_three_points : Path.t (H := Sample64) :=
  {| Path.startParameter := float_of_Z 0; Path.endParameter := float_of_Z 1;
     Path.decimalPrecision := 2;
     Path.points := [x08; x0c; x04; x03; x00; x08];
     Path.strokeWidths := [xc8; x01; x14; x09];
     Path.strokeColor := [x02];
     Path.unknown := None |}.

(** A stand-in for [parse_from_bytes]: no bytes are no record, any others
    are the points field of one. *)
Definition sample_parse (_pth : list byte) : result (Path.t (H := Sample64)) :=
  match _pth with
  | [] => Raise ParseError
  | _ =>
      Ok {| Path.startParameter := float_of_Z 0; Path.endParameter := float_of_Z 1;
            Path.decimalPrecision := 2;
            Path.points := _pth;
            Path.strokeWidths := [xc8; x01];
            Path.strokeColor := [];
            Path.unknown := None |}
  end.

(** The sub-record [_pth] parses, and its record gives the dict [d]. *)
Definition assembles `{PyFloat} (parse_from_bytes : list byte -> result Path.t)
    (_pth : list byte) (d : _path_dict) : Prop :=
  exists p : Path.t, parse_from_bytes _pth = Ok p /\ read_path p = Ok d.

(** ** The pages and the writers [save_as_svg] and [save_as_inkml]

    A writer is modelled by the files it writes, in order: the name, and
    the dict handed to [xmltodict.unparse].  A dict is the list of its
    keys and values, in insertion order.  [_fname] is the name after the
    test on [fname]. *)

Module Page.

(** [_WillPage], with [width] and [height] the strings [__init__] makes
    of them. *)
Record t `{PyFloat} : Type := {
  paths : list _path_dict;
  width : string;
  height : string
}.

End Page.

(** [str(n)] of a page or trace number. *)
Definition str_nat (n : nat) : string :=
  DecimalString.NilZero.string_of_uint (Nat.to_uint n).

Module Svg.

(** [p_dict['svg']], by its keys ["@width"], ["@height"], ["polyline"]
    and ["path"]. *)
Record t : Type := {
  width : string;
  height : string;
  polyline : list (list (string * string));
  path : list (list (string * string))
}.

End Svg.

Section Writers.
Context `{PyFloat}.

(** Float formatting and arithmetic, left abstract: [str(x)],
    [str(int(x * 26.45833))] and [str(w * 1000)]. *)
Variable str : float -> string.
Variable str_himetric : float -> string.
Variable str_milli : float -> string.

(** [_data] of a polyline. *)
Definition svg_polyline_data (_points : list (float * float)) : string :=
  fold_left
    (fun _data p => _data +:+ (((str (fst p) +:+ ",") +:+ str (snd p)) +:+ " "))
    _points "".

(** One iteration of the loop that writes [_data] of a path, on
    [(_data, _first)]. *)
Definition svg_path_step (s : string * bool) (p : float * float) : string * bool :=
  let '(_data, _first) := s in
  if _first then
    (_data +:+ ((("M" +:+ str (fst p)) +:+ " ") +:+ str (snd p)), false)
  else
    (_data +:+ (((" L" +:+ str (fst p)) +:+ " ") +:+ str (snd p)), _first).

Definition svg_path_data (_points : list (float * float)) : string :=
  fst (fold_left svg_path_step _points ("", true)).

Definition pth_dict (use_polyline : bool) (_path : _path_dict)
  : list (string * string) :=
  let style :=
    ("@style", "fill:none;stroke:black;stroke-width:" +:+ str (avg_width _path)) in
  if use_polyline then [style; ("@points", svg_polyline_data (points _path))]
  else [style; ("@d", svg_path_data (points _path))].

(** One iteration of [for path in page.paths], on [p_dict['svg']]. *)
Definition svg_page_step (use_polyline : bool) (p_dict : Svg.t) (_path : _path_dict)
  : Svg.t :=
  if use_polyline then
    {| Svg.width := Svg.width p_dict; Svg.height := Svg.height p_dict;
       Svg.polyline := Svg.polyline p_dict ++ [pth_dict use_polyline _path];
       Svg.path := Svg.path p_dict |}
  else
    {| Svg.width := Svg.width p_dict; Svg.height := Svg.height p_dict;
       Svg.polyline := Svg.polyline p_dict;
       Svg.path := Svg.path p_dict ++ [pth_dict use_polyline _path] |}.

(** One iteration of [for page in self.pages], on [__page_n] and the
    files written. *)
Definition svg_step (_fname : string) (use_polyline : bool)
    (s : nat * list (string * Svg.t)) (page : Page.t)
  : nat * list (string * Svg.t) :=
  let '(__page_n, files) := s in
  let p_dict :=
    fold_left (svg_page_step use_polyline) (Page.paths page)
      {| Svg.width := Page.width page; Svg.height := Page.height page;
         Svg.polyline := []; Svg.path := [] |} in
  (S __page_n, files ++ [((_fname +:+ str_nat __page_n) +:+ ".svg", p_dict)]).

Definition save_as_svg (_fname : string) (use_polyline : bool)
    (pages : list Page.t) : list (string * Svg.t) :=
  snd (fold_left (svg_step _fname use_polyline) pages (0%nat, [])).







End Writers.

(** * Properties *)

(** ** Bytes and bit masks *)

Lemma land_0x80 (b : byte) :
  (Z.land (byte_to_Z b) 0x80 =? 0x80) = (128 <=? byte_to_Z b).
Proof. destruct b; reflexivity. Qed.

Lemma land_0x7F (b : byte) : Z.land (byte_to_Z b) 0x7F = byte_to_Z b mod 128.
Proof. change 0x7F with (Z.ones 7). now rewrite Z.land_ones. Qed.

Lemma byte_to_Z_of_N (n : N) : (n < 256)%N -> byte_to_Z (Wire.byte_of_N n) = Z.of_N n.
Proof.
  intros Hn. unfold byte_to_Z, Wire.byte_of_N.
  destruct (Byte.of_N n) as [b|] eqn:Hb.
  - apply Byte.to_of_N in Hb. now rewrite Hb.
  - apply Byte.of_N_None_iff in Hb. lia.
Qed.

(** ** The varint encoder, byte by byte *)

Lemma encode_varint_unfold (n : N) :
  Wire.encode_varint n =
  if (n <? 128)%N then [Wire.byte_of_N n]
  else Wire.byte_of_N (128 + n mod 128) :: Wire.encode_varint (n / 128).
Proof.
  rewrite Wire.encode_varint_equation_1 at 1.
  generalize (inspect (n <? 128)%N). intros [[] e]; simpl; now rewrite e.
Qed.

(** The last byte of a varint: no continuation bit, the last seven bits. *)
Lemma last_byte (n : N) :
  (n < 128)%N ->
  (128 <=? byte_to_Z (Wire.byte_of_N n)) = false /\
  byte_to_Z (Wire.byte_of_N n) mod 128 = Z.of_N n.
Proof.
  intros Hn. rewrite byte_to_Z_of_N by lia. split.
  - apply Z.leb_gt. lia.
  - apply Z.mod_small. lia.
Qed.

(** Any other byte of a varint: continuation bit set, seven lower bits. *)
Lemma continuation_byte (n : N) :
  (128 <=? byte_to_Z (Wire.byte_of_N (128 + n mod 128))) = true /\
  byte_to_Z (Wire.byte_of_N (128 + n mod 128)) mod 128 = Z.of_N (n mod 128).
Proof.
  assert (n mod 128 < 128)%N as Hm by (apply N.mod_lt; lia).
  generalize dependent (n mod 128)%N. intros m Hm.
  rewrite byte_to_Z_of_N by lia. split.
  - apply Z.leb_le. lia.
  - rewrite N2Z.inj_add. change (Z.of_N 128) with (1 * 128).
    rewrite Z.add_comm, Z.mod_add by lia. apply Z.mod_small. lia.
Qed.

(** The groups of seven bits add up to the encoded number. *)
Lemma varint_split (n : N) (l i : Z) :
  0 <= i ->
  l + Z.of_N (n mod 128) * 2 ^ (7 * i) + Z.of_N (n / 128) * 2 ^ (7 * (i + 1)) =
  l + Z.of_N n * 2 ^ (7 * i).
Proof.
  intros Hi.
  replace (7 * (i + 1)) with (7 * i + 7) by lia.
  rewrite Z.pow_add_r by lia.
  rewrite (N.div_mod n 128) at 3 by lia.
  rewrite N2Z.inj_add, N2Z.inj_mul. change (Z.of_N 128) with 128.
  change (2 ^ 7) with 128. ring.
Qed.

(** ** [__read_packed_sint32] *)

Lemma packed_step_continues (s : Packed.state) (b : byte) :
  continues b -> Packed._ints (Packed.step s b) = Packed._ints s.
Proof.
  intros Hb. unfold Packed.step. cbv zeta. rewrite land_0x80.
  apply Z.leb_le in Hb. now rewrite Hb.
Qed.

Lemma packed_run_continues (tl : list byte) (s : Packed.state) :
  Forall continues tl ->
  Packed._ints (fold_left Packed.step tl s) = Packed._ints s.
Proof.
  intros Htl. revert s.
  induction Htl as [|b tl Hb _ IH]; intros s; simpl; [reflexivity|].
  rewrite IH. now apply packed_step_continues.
Qed.

(** The loop over one encoded varint appends its zigzag decoding and
    leaves the accumulator and the shift index at zero. *)
Lemma packed_run_varint (n : N) (s : Packed.state) :
  0 <= Packed.__i s ->
  fold_left Packed.step (Wire.encode_varint n) s =
  {| Packed._ints :=
       Packed._ints s
       ++ [Packed.zigzag (Packed.__l s + Z.of_N n * 2 ^ (7 * Packed.__i s))];
     Packed.__l := 0;
     Packed.__i := 0 |}.
Proof.
  revert s.
  induction n as [n IH] using (well_founded_induction N.lt_wf_0).
  intros s Hi. rewrite encode_varint_unfold.
  destruct (n <? 128)%N eqn:Hn.
  - apply N.ltb_lt in Hn. destruct (last_byte n Hn) as [Htop Hlow].
    simpl. unfold Packed.step. cbv zeta.
    rewrite land_0x80, Htop, land_0x7F, Hlow.
    now rewrite Z.shiftl_mul_pow2 by lia.
  - apply N.ltb_ge in Hn. destruct (continuation_byte n) as [Htop Hlow].
    simpl. unfold Packed.step at 2. cbv zeta.
    rewrite land_0x80, Htop, land_0x7F, Hlow.
    rewrite IH; simpl.
    + rewrite Z.shiftl_mul_pow2 by lia. now rewrite varint_split.
    + apply N.div_lt; lia.
    + lia.
Qed.

(** ** Zigzag *)

Lemma zigzag_encode_cases (v : Z) :
  - 2 ^ 31 <= v < 2 ^ 31 ->
  Wire.zigzag_encode v = if v <? 0 then - 2 * v - 1 else 2 * v.
Proof.
  intros Hv. unfold Wire.zigzag_encode.
  rewrite Z.shiftl_mul_pow2, Z.shiftr_div_pow2 by lia.
  change (2 ^ 1) with 2.
  destruct (v <? 0) eqn:Hneg.
  - apply Z.ltb_lt in Hneg.
    replace (v / 2 ^ 31) with (-1)
      by (apply (Z.div_unique v (2 ^ 31) (-1) (v + 2 ^ 31)); lia).
    rewrite Z.lxor_m1_r. unfold Z.lnot.
    rewrite Z.mod_small; lia.
  - apply Z.ltb_ge in Hneg.
    rewrite Z.div_small, Z.lxor_0_r by lia.
    rewrite Z.mod_small; lia.
Qed.

Lemma land_1 (l : Z) : Z.land l 1 = l mod 2.
Proof. change 1 with (Z.ones 1). now rewrite Z.land_ones. Qed.

Lemma zigzag_even (v : Z) : Packed.zigzag (2 * v) = v.
Proof.
  unfold Packed.zigzag.
  rewrite land_1, Z.shiftr_div_pow2 by lia.
  change (2 ^ 1) with 2.
  rewrite (Z.mul_comm 2 v), Z.div_mul, Z.mod_mul by lia.
  apply Z.lxor_0_r.
Qed.

Lemma zigzag_odd (k : Z) : Packed.zigzag (2 * k + 1) = - k - 1.
Proof.
  unfold Packed.zigzag.
  rewrite land_1, Z.shiftr_div_pow2 by lia.
  change (2 ^ 1) with 2.
  replace ((2 * k + 1) / 2) with k
    by (apply (Z.div_unique (2 * k + 1) 2 k 1); lia).
  replace ((2 * k + 1) mod 2) with 1
    by (apply (Z.mod_unique (2 * k + 1) 2 k 1); lia).
  change (- (1)) with (-1). rewrite Z.lxor_m1_r. unfold Z.lnot. lia.
Qed.

Lemma zigzag_decode_encode (v : Z) :
  - 2 ^ 31 <= v < 2 ^ 31 -> Packed.zigzag (Wire.zigzag_encode v) = v.
Proof.
  intros Hv. rewrite zigzag_encode_cases by assumption.
  destruct (v <? 0) eqn:Hneg.
  - replace (- 2 * v - 1) with (2 * (- v - 1) + 1) by lia.
    rewrite zigzag_odd. lia.
  - apply zigzag_even.
Qed.

Lemma zigzag_encode_nonneg (v : Z) :
  - 2 ^ 31 <= v < 2 ^ 31 -> 0 <= Wire.zigzag_encode v.
Proof.
  intros Hv. rewrite zigzag_encode_cases by assumption.
  destruct (v <? 0) eqn:Hneg; [apply Z.ltb_lt in Hneg|apply Z.ltb_ge in Hneg]; lia.
Qed.

(** C4, as the code has it: a trailing run of bytes with the continuation
    bit set, that is a varint the input ends in the middle of, raises
    nothing and adds nothing: [__read_packed_sint32] returns the integers
    of the bytes before it. *)
Theorem read_packed_drops_partial_varint (pre tl : list byte) :
  Forall continues tl ->
  __read_packed_sint32 (pre ++ tl) = __read_packed_sint32 pre.
Proof.
  intros Htl. unfold __read_packed_sint32.
  rewrite fold_left_app. now apply packed_run_continues.
Qed.

Lemma read_packed_drops_partial_varint_witness :
  Forall continues [x80; xff] /\
  __read_packed_sint32 ([x08; x0c] ++ [x80; xff]) = __read_packed_sint32 [x08; x0c].
Proof.
  assert (Forall continues [x80; xff]) as Htl
    by (repeat constructor; unfold continues; vm_compute; discriminate).
  split; [exact Htl|].
  apply (read_packed_drops_partial_varint [x08; x0c] [x80; xff] Htl).
Defined.

(** C4 as stated fails: the input ends inside a varint, and a sequence is
    returned all the same. *)
Lemma read_packed_partial_varint_returns :
  continues x80 /\ __read_packed_sint32 [x02; x80] = [1].
Proof.
  split; [unfold continues; vm_compute; discriminate|reflexivity].
Qed.

(** C9: a sint32 written zigzag then varint is read back as itself. *)
Theorem sint32_round_trip (v : Z) :
  - 2 ^ 31 <= v < 2 ^ 31 ->
  __read_packed_sint32 (Wire.encode_sint32 v) = [v].
Proof.
  intros Hv. unfold __read_packed_sint32, Wire.encode_sint32.
  rewrite packed_run_varint by (simpl; lia).
  cbn [Packed._ints Packed.__l Packed.__i Packed.init app].
  rewrite Z2N.id by now apply zigzag_encode_nonneg.
  change (2 ^ (7 * 0)) with 1.
  rewrite Z.mul_1_r, Z.add_0_l. now rewrite zigzag_decode_encode.
Qed.

Lemma sint32_round_trip_witness :
  - 2 ^ 31 <= -2147483648 < 2 ^ 31 /\
  __read_packed_sint32 (Wire.encode_sint32 (-2147483648)) = [-2147483648].
Proof.
  assert (- 2 ^ 31 <= -2147483648 < 2 ^ 31) as Hv by lia.
  split; [exact Hv|apply (sint32_round_trip (-2147483648) Hv)].
Defined.

(** ** The framing loop *)

Lemma for_each_app {S A : Type} (body : S -> A -> result S) (xs ys : list A) (s : S) :
  for_each body (xs ++ ys) s = (s' ← for_each body xs s; for_each body ys s').
Proof.
  revert s. induction xs as [|x xs IH]; intros s; simpl; [reflexivity|].
  destruct (body s x) as [s'|e]; simpl; [apply IH|reflexivity].
Qed.

(** A length prefix, read from a state with nothing left to copy, opens
    a new sub-record of the encoded length. *)
Lemma framing_run_varint (n : N) (s : Framing.state) :
  Framing._l s = 0 ->
  0 <= Framing.__i s ->
  for_each Framing.step (Wire.encode_varint n) s =
  let l := Framing.__l s + Z.of_N n * 2 ^ (7 * Framing.__i s) in
  Ok {| Framing._l := l;
        Framing.__l := l;
        Framing._paths := Framing._paths s ++ [[]];
        Framing.__i :=
          Framing.__i s + Z.of_nat (length (Wire.encode_varint n)) - 1 |}.
Proof.
  revert s.
  induction n as [n IH] using (well_founded_induction N.lt_wf_0).
  intros s Hl Hi. rewrite encode_varint_unfold.
  destruct (n <? 128)%N eqn:Hn.
  - apply N.ltb_lt in Hn. destruct (last_byte n Hn) as [Htop Hlow].
    simpl. unfold Framing.step.
    rewrite Hl, land_0x80, Htop, land_0x7F, Hlow. simpl.
    rewrite Z.shiftl_mul_pow2 by lia.
    do 2 f_equal. lia.
  - apply N.ltb_ge in Hn. destruct (continuation_byte n) as [Htop Hlow].
    cbn [for_each]. unfold Framing.step at 2.
    rewrite Hl, land_0x80, Htop, land_0x7F, Hlow.
    cbn [mbind result_bind Z.eqb].
    rewrite IH; cbn [Framing._l Framing.__l Framing._paths Framing.__i].
    + cbv zeta. rewrite Z.shiftl_mul_pow2 by lia.
      rewrite varint_split by assumption.
      do 2 f_equal. simpl length. lia.
    + apply N.div_lt; lia.
    + reflexivity.
    + lia.
Qed.

(** One byte of a sub-record is appended to the last collected one. *)
Lemma framing_step_body (s : Framing.state) (ps : list (list byte))
    (cur : list byte) (b : byte) :
  Framing._l s <> 0 ->
  Framing._paths s = ps ++ [cur] ->
  Framing.step s b =
  Ok {| Framing._l := Framing._l s - 1;
        Framing.__l := 0;
        Framing._paths := ps ++ [cur ++ [b]];
        Framing.__i := 0 |}.
Proof.
  intros Hl Hps. unfold Framing.step.
  apply Z.eqb_neq in Hl. rewrite Hl, Hps.
  rewrite length_app. simpl length.
  replace (length ps + 1 - 1)%nat with (length ps + 0)%nat by lia.
  unfold index. rewrite lookup_app_r by lia.
  replace (length ps + 0 - length ps)%nat with 0%nat by lia.
  simpl. now rewrite insert_app_r.
Qed.

Lemma framing_run_body (body : list byte) :
  forall (s : Framing.state) (ps : list (list byte)) (cur : list byte),
    Framing._paths s = ps ++ [cur] ->
    Z.of_nat (length body) <= Framing._l s ->
    body <> [] ->
    for_each Framing.step body s =
    Ok {| Framing._l := Framing._l s - Z.of_nat (length body);
          Framing.__l := 0;
          Framing._paths := ps ++ [cur ++ body];
          Framing.__i := 0 |}.
Proof.
  induction body as [|b body IH]; intros s ps cur Hps Hlen Hne; [congruence|].
  cbn [for_each]. simpl length in *.
  rewrite (framing_step_body s ps cur b) by (assumption || lia).
  cbn [mbind result_bind].
  destruct body as [|b' body].
  - reflexivity.
  - rewrite (IH _ ps (cur ++ [b])); cbn [Framing._l Framing._paths]; try easy.
    + rewrite <- app_assoc. do 2 f_equal. simpl length. lia.
    + simpl length in *. lia.
Qed.

(** A whole sub-record behind its length leaves the loop between two
    sub-records again. *)
Lemma framing_run_record (r : list byte) (ps : list (list byte)) :
  for_each Framing.step
    (Wire.encode_varint (N.of_nat (length r)) ++ r) (Framing.between ps) =
  Ok (Framing.between (ps ++ [r])).
Proof.
  rewrite for_each_app, framing_run_varint by (simpl; lia).
  cbn [mbind result_bind]. cbv zeta.
  cbn [Framing._l Framing.__l Framing._paths Framing.__i Framing.between].
  destruct r as [|b r].
  - reflexivity.
  - rewrite (framing_run_body (b :: r) _ ps []);
      cbn [Framing._l Framing._paths]; try easy.
    + unfold Framing.between. do 2 f_equal.
      change (2 ^ (7 * 0)) with 1. lia.
    + change (2 ^ (7 * 0)) with 1. lia.
Qed.

Lemma framing_run_records (rs : list (list byte)) :
  forall ps : list (list byte),
    for_each Framing.step (Wire.encode_records rs) (Framing.between ps) =
    Ok (Framing.between (ps ++ rs)).
Proof.
  unfold Wire.encode_records.
  induction rs as [|r rs IH]; intros ps; simpl.
  - now rewrite app_nil_r.
  - rewrite for_each_app, framing_run_record. cbn [mbind result_bind].
    rewrite IH. now rewrite <- app_assoc.
Qed.

(** C8: framing the sub-records written each behind the varint of its
    length gives back exactly these sub-records, in order. *)
Theorem frame_encode_records (rs : list (list byte)) :
  frame (Wire.encode_records rs) = Ok rs.
Proof.
  unfold frame. change Framing.init with (Framing.between []).
  now rewrite framing_run_records.
Qed.

(** Bytes with the continuation bit set, read with nothing left to copy,
    only move the accumulator and the shift index. *)
Lemma framing_run_continues (tl : list byte) :
  forall s : Framing.state,
    Framing._l s = 0 ->
    Forall continues tl ->
    exists l i : Z,
      for_each Framing.step tl s =
      Ok {| Framing._l := 0;
            Framing.__l := l;
            Framing._paths := Framing._paths s;
            Framing.__i := i |}.
Proof.
  induction tl as [|b tl IH]; intros s Hl Htl.
  - exists (Framing.__l s), (Framing.__i s). destruct s; simpl in *. now subst.
  - apply Forall_cons in Htl as [Hb Htl]. apply Z.leb_le in Hb.
    cbn [for_each]. unfold Framing.step at 2.
    rewrite Hl, land_0x80, Hb. cbn [mbind result_bind Z.eqb].
    match goal with
    | |- context [for_each Framing.step tl ?s'] =>
        destruct (IH s' eq_refl Htl) as (l & i & Hrun)
    end.
    rewrite Hrun. now exists l, i.
Qed.

(** The subscript of the framing loop is never out of range: something to
    copy means a sub-record was opened. *)
Lemma framing_run_total (payload : list byte) :
  forall s : Framing.state,
    (Framing._l s <> 0 -> Framing._paths s <> []) ->
    exists s' : Framing.state, for_each Framing.step payload s = Ok s'.
Proof.
  induction payload as [|b payload IH]; intros s Hinv; [now exists s|].
  cbn [for_each]. unfold Framing.step at 2.
  destruct (Framing._l s =? 0) eqn:Hl.
  - destruct (Z.land (byte_to_Z b) 128 =? 128);
      cbn [mbind result_bind]; apply IH;
      cbn [Framing._l Framing._paths]; intros Hl'.
    + apply Z.eqb_eq in Hl. congruence.
    + now destruct (Framing._paths s).
  - apply Z.eqb_neq in Hl. specialize (Hinv Hl).
    destruct (Framing._paths s) as [|p ps] using rev_ind; [congruence|].
    unfold index. rewrite length_app. simpl length.
    replace (length ps + 1 - 1)%nat with (length ps + 0)%nat by lia.
    rewrite lookup_app_r by lia.
    replace (length ps + 0 - length ps)%nat with 0%nat by lia.
    cbn [lookup list_lookup mbind result_bind]. apply IH.
    cbn [Framing._l Framing._paths]. intros _.
    rewrite insert_app_r. now destruct ps.
Qed.

Lemma frame_total (payload : list byte) :
  exists recs : list (list byte), frame payload = Ok recs.
Proof.
  unfold frame.
  destruct (framing_run_total payload Framing.init) as [s' Hs']; [easy|].
  rewrite Hs'. now exists (Framing._paths s').
Qed.

Lemma frame_short_record (rs : list (list byte)) (L : N) (rest : list byte) :
  (N.of_nat (length rest) < L)%N ->
  frame (Wire.encode_records rs ++ Wire.encode_varint L ++ rest) = Ok (rs ++ [rest]).
Proof.
  intros Hshort. unfold frame. change Framing.init with (Framing.between []).
  rewrite for_each_app, framing_run_records. cbn [mbind result_bind].
  rewrite for_each_app, framing_run_varint by (simpl; lia).
  cbn [mbind result_bind]. cbv zeta.
  cbn [Framing._l Framing.__l Framing._paths Framing.__i Framing.between app].
  destruct rest as [|b rest].
  - reflexivity.
  - rewrite (framing_run_body (b :: rest) _ rs []);
      cbn [Framing._l Framing._paths]; try easy.
    change (2 ^ (7 * 0)) with 1. lia.
Qed.

Lemma frame_dangling_prefix (rs : list (list byte)) (tl : list byte) :
  Forall continues tl ->
  frame (Wire.encode_records rs ++ tl) = Ok rs.
Proof.
  intros Htl. unfold frame. change Framing.init with (Framing.between []).
  rewrite for_each_app, framing_run_records. cbn [mbind result_bind app].
  destruct (framing_run_continues tl (Framing.between rs) eq_refl Htl)
    as (l & i & ->).
  reflexivity.
Qed.

(** C5, as the code has it: the framing loop raises on no payload.  After
    complete sub-records [rs], a length prefix [L] followed by fewer than
    [L] bytes gives these bytes as a last, short sub-record; a run of
    bytes with the continuation bit set, a length prefix the input ends in
    the middle of, is read and gives nothing. *)
Theorem frame_truncated (payload : list byte) (rs : list (list byte)) (L : N)
    (rest tl : list byte) :
  (N.of_nat (length rest) < L)%N ->
  Forall continues tl ->
  (exists recs : list (list byte), frame payload = Ok recs) /\
  frame (Wire.encode_records rs ++ Wire.encode_varint L ++ rest) = Ok (rs ++ [rest]) /\
  frame (Wire.encode_records rs ++ tl) = Ok rs.
Proof.
  intros Hshort Htl. split; [apply frame_total|]. split.
  - now apply frame_short_record.
  - now apply frame_dangling_prefix.
Qed.

Lemma frame_truncated_witness :
  (N.of_nat (length [x0b]) < 3)%N /\
  Forall continues [x81] /\
  (exists recs : list (list byte), frame [xff; x00; x01] = Ok recs) /\
  frame (Wire.encode_records [[x0a]] ++ Wire.encode_varint 3 ++ [x0b])
  = Ok ([[x0a]] ++ [[x0b]]) /\
  frame (Wire.encode_records [[x0a]] ++ [x81]) = Ok [[x0a]].
Proof.
  assert (N.of_nat (length [x0b]) < 3)%N as Hshort by (simpl; lia).
  assert (Forall continues [x81]) as Htl
    by (repeat constructor; unfold continues; vm_compute; discriminate).
  split; [exact Hshort|]. split; [exact Htl|].
  apply (frame_truncated [xff; x00; x01] [[x0a]] 3 [x0b] [x81] Hshort Htl).
Defined.

(** C5 as stated fails: a length prefix of 3 with one byte behind it, and
    a payload ending inside a length prefix, both return sub-records; the
    first a short one. *)
Lemma frame_truncated_returns :
  frame [x03; x01] = Ok [[x01]] /\
  continues x80 /\ frame [x01; x0a; x80] = Ok [[x0a]].
Proof.
  split; [reflexivity|].
  split; [unfold continues; vm_compute; discriminate|reflexivity].
Qed.

(** ** The division loops *)

Lemma map_result_ok {A B : Type} (f : A -> result B) (xs : list A) (ys : list B) :
  map_result f xs = Ok ys <-> Forall2 (fun x y => f x = Ok y) xs ys.
Proof.
  revert ys. induction xs as [|x xs IH]; intros ys; cbn [map_result].
  - split; [intros [= <-]; constructor|intros Hys; now inversion Hys].
  - destruct (f x) as [y|e] eqn:Hx; cbn [mbind result_bind].
    + destruct (map_result f xs) as [ys'|e] eqn:Hxs; cbn [mbind result_bind].
      * split.
        -- intros [= <-]. constructor; [exact Hx|now apply IH].
        -- intros Hys. inversion Hys as [|? y' ? ys'' Hy' Hys'']; subst.
           apply IH in Hys''. congruence.
      * split; [discriminate|]. intros Hys.
        inversion Hys as [|? y' ? ys'' Hy' Hys'']; subst.
        apply IH in Hys''. discriminate.
    + split; [discriminate|]. intros Hys.
      inversion Hys as [|? y' ? ys'' Hy' Hys'']; subst. congruence.
Qed.

Lemma map_result_raise {A B : Type} (f : A -> result B) (xs : list A) (e : exn) :
  map_result f xs = Raise e -> exists x : A, In x xs /\ f x = Raise e.
Proof.
  induction xs as [|x xs IH]; cbn [map_result]; [discriminate|].
  destruct (f x) as [y|e'] eqn:Hx; cbn [mbind result_bind].
  - destruct (map_result f xs) as [ys|e'']; cbn [mbind result_bind];
      [discriminate|].
    intros [= ->]. destruct IH as (x' & Hin & Hx'); [reflexivity|].
    exists x'. split; [now right|exact Hx'].
  - intros [= ->]. exists x. split; [now left|exact Hx].
Qed.

(** ** Division of two ints *)

Lemma pow10_pos (_precision : N) : 0 < 10 ^ Z.of_N _precision.
Proof. apply Z.pow_pos_nonneg; lia. Qed.

Lemma fits_dec (a b : Z) : {fits a b} + {~ fits a b}.
Proof. unfold fits. destruct (Z_lt_dec (Z.abs a) (float_overflow * Z.abs b)); auto. Qed.

Lemma truediv64_fits (a b : Z) :
  0 < b -> fits a b -> exists q : spec_float, truediv64 a b = Ok q.
Proof.
  intros Hb Hfit. unfold truediv64, fits in *.
  replace (b =? 0) with false by (symmetry; apply Z.eqb_neq; lia).
  replace (float_overflow * Z.abs b <=? Z.abs a) with false
    by (symmetry; apply Z.leb_gt; exact Hfit).
  destruct (SFdiv_core_binary 53 1024 (Z.abs a) 0 (Z.abs b) 0) as [[q e] l].
  eexists. reflexivity.
Qed.

Lemma truediv64_raise (a b : Z) (e : exn) :
  0 < b -> truediv64 a b = Raise e -> e = OverflowError /\ ~ fits a b.
Proof.
  intros Hb. unfold truediv64, fits.
  replace (b =? 0) with false by (symmetry; apply Z.eqb_neq; lia).
  destruct (float_overflow * Z.abs b <=? Z.abs a) eqn:Hover.
  - intros [= <-]. apply Z.leb_le in Hover. split; [reflexivity|lia].
  - destruct (SFdiv_core_binary 53 1024 (Z.abs a) 0 (Z.abs b) 0) as [[q e'] l].
    discriminate.
Qed.

Lemma truediv64_overflow (a b : Z) :
  0 < b -> ~ fits a b -> truediv64 a b = Raise OverflowError.
Proof.
  intros Hb Hfit. destruct (truediv64 a b) as [q|e] eqn:Hdiv.
  - exfalso. apply Hfit. destruct (fits_dec a b) as [Hyes|Hno]; [exact Hyes|].
    unfold truediv64 in Hdiv.
    replace (b =? 0) with false in Hdiv by (symmetry; apply Z.eqb_neq; lia).
    replace (float_overflow * Z.abs b <=? Z.abs a) with true in Hdiv
      by (symmetry; apply Z.leb_le; unfold fits in Hno; lia).
    discriminate.
  - now destruct (truediv64_raise a b e Hb Hdiv) as [-> _].
Qed.

Lemma truediv64_ok (a b : Z) (q : spec_float) :
  0 < b -> truediv64 a b = Ok q -> fits a b.
Proof.
  intros Hb Hdiv. destruct (fits_dec a b) as [Hyes|Hno]; [exact Hyes|].
  rewrite (truediv64_overflow a b Hb Hno) in Hdiv. discriminate.
Qed.

Lemma map_result_returns {A B : Type} (f : A -> result B) (xs : list A) :
  (forall x : A, In x xs -> exists y : B, f x = Ok y) ->
  exists ys : list B, map_result f xs = Ok ys.
Proof.
  induction xs as [|x xs IH]; intros Hok; cbn [map_result]; [now exists []|].
  destruct (Hok x) as [y ->]; [now left|].
  destruct IH as [ys ->]; [intros x' Hx'; apply Hok; now right|].
  now exists (y :: ys).
Qed.

(** ** [__decode_will_coordinates] *)

Lemma sum_snoc (xs : list Z) (x : Z) :
  fold_right Z.add 0 (xs ++ [x]) = fold_right Z.add 0 xs + x.
Proof. induction xs as [|y xs IH]; simpl; lia. Qed.

Lemma axis_sum_0 (ints : list Z) (off : nat) (x : Z) :
  ints !! off = Some x -> axis_sum ints off 0 = x.
Proof. intros Hx. unfold axis_sum. simpl. rewrite Hx. simpl. lia. Qed.

Lemma axis_sum_S (ints : list Z) (off j : nat) (x : Z) :
  ints !! (2 * S j + off)%nat = Some x ->
  axis_sum ints off (S j) = axis_sum ints off j + x.
Proof.
  intros Hx. unfold axis_sum.
  rewrite (seq_S (S j)), map_app. cbn [map Nat.add].
  now rewrite sum_snoc, Hx.
Qed.

(** Integers behind the last one that is summed do not count. *)
Lemma axis_sum_app (ints more : list Z) (off j : nat) :
  (2 * j + off < length ints)%nat ->
  axis_sum (ints ++ more) off j = axis_sum ints off j.
Proof.
  intros Hlen. unfold axis_sum. f_equal. apply map_ext_in.
  intros m Hm. apply in_seq in Hm. now rewrite lookup_app_l by lia.
Qed.

Section Coordinates.
Context `{PyFloat}.

(** The reconstruction loop keeps, at position [j], the sums of the two
    axes up to the pair [j]; every subscript is in range. *)
Lemma coordinates_loop_sums (x y : Z) (rest : list Z) (k : nat) :
  (2 * k + 2 <= length (x :: y :: rest))%nat ->
  exists pts : list (Z * Z),
    for_each (coordinates_step (x :: y :: rest)) (seq 2 k) ([(x, y)], 2%nat)
    = Ok (pts, (2 + 2 * k)%nat)
    /\ length pts = S k
    /\ forall j : nat,
        (j <= k)%nat ->
        pts !! j = Some (axis_sum (x :: y :: rest) 0 j, axis_sum (x :: y :: rest) 1 j).
Proof.
  set (_ints := x :: y :: rest).
  induction k as [|k IH]; intros Hlen.
  - exists [(x, y)]. repeat split. intros j Hj. replace j with 0%nat by lia.
    now rewrite (axis_sum_0 _ints 0 x), (axis_sum_0 _ints 1 y).
  - destruct IH as (pts & Hrun & Hpts & Hsums); [lia|].
    rewrite seq_S, for_each_app, Hrun.
    cbn [mbind result_bind for_each]. unfold coordinates_step, index.
    replace (2 + k - 2)%nat with k by lia.
    rewrite (Hsums k) by lia.
    destruct (lookup_lt_is_Some_2 _ints (2 + 2 * k)) as [dx Hdx]; [lia|].
    destruct (lookup_lt_is_Some_2 _ints (2 + 2 * k + 1)) as [dy Hdy]; [lia|].
    rewrite Hdx, Hdy. cbn [mbind result_bind fst snd].
    eexists. split; [do 2 f_equal; lia|].
    split; [rewrite length_app; simpl; lia|].
    intros j Hj. destruct (decide (j = S k)) as [->|Hne].
    + rewrite lookup_app_r by lia. rewrite Hpts, Nat.sub_diag. cbn [lookup list_lookup].
      rewrite (axis_sum_S _ints 0 k dx), (axis_sum_S _ints 1 k dy); [reflexivity|..].
      * replace (2 * S k + 1)%nat with (2 + 2 * k + 1)%nat by lia. exact Hdy.
      * replace (2 * S k + 0)%nat with (2 + 2 * k)%nat by lia. exact Hdx.
    + rewrite lookup_app_l by lia. apply Hsums. lia.
Qed.

(** The two loops in one: the running sums of the two axes, one pair for
    each point, divided in order. *)
Lemma decode_will_coordinates_closed (x y : Z) (rest : list Z) (_precision : N) :
  __decode_will_coordinates (x :: y :: rest) _precision
  = map_result (divide_point (10 ^ Z.of_N _precision))
      (map (fun j => (axis_sum (x :: y :: rest) 0 j, axis_sum (x :: y :: rest) 1 j))
         (seq 0 (S (length (x :: y :: rest) / 2 - 2)))).
Proof.
  unfold __decode_will_coordinates, pow10. cbv zeta.
  set (_ints := x :: y :: rest).
  change (index _ints 0) with (Ok (A := Z) x).
  change (index _ints 1) with (Ok (A := Z) y).
  cbn [mbind result_bind].
  pose proof (Nat.div_mod_eq (length _ints) 2) as Hdiv.
  pose proof (Nat.mod_upper_bound (length _ints) 2) as Hmod.
  assert (2 <= length _ints)%nat as Hlen by (simpl; lia).
  destruct (coordinates_loop_sums x y rest (length _ints / 2 - 2))
    as (pts & Hrun & Hpts & Hsums); [fold _ints; lia|].
  fold _ints in Hrun, Hsums. rewrite Hrun. cbn [mbind result_bind fst].
  f_equal. apply (list_eq_same_length _ _ (S (length _ints / 2 - 2))).
  - now rewrite length_map, length_seq.
  - exact Hpts.
  - intros j pt pt' Hj Hpt Hpt'. rewrite Hsums in Hpt by lia.
    change map with (@fmap list _) in Hpt'.
    rewrite list_lookup_fmap, lookup_seq_lt in Hpt' by lia.
    cbn [fmap option_fmap option_map Nat.add] in Hpt'. congruence.
Qed.

(** On an even number of integers, one more at the end changes nothing. *)
Lemma decode_will_coordinates_unpaired (x y : Z) (rest : list Z) (z : Z)
    (_precision : N) :
  Nat.Even (length (x :: y :: rest)) ->
  __decode_will_coordinates ((x :: y :: rest) ++ [z]) _precision
  = __decode_will_coordinates (x :: y :: rest) _precision.
Proof.
  intros [h Hh].
  change ((x :: y :: rest) ++ [z]) with (x :: y :: (rest ++ [z])).
  rewrite !decode_will_coordinates_closed.
  change (x :: y :: (rest ++ [z])) with ((x :: y :: rest) ++ [z]).
  set (_ints := x :: y :: rest) in *.
  assert (length (_ints ++ [z]) / 2 = length _ints / 2)%nat as ->.
  { rewrite length_app, Hh. simpl length.
    replace (2 * h + 1)%nat with (1 + h * 2)%nat by lia.
    rewrite Nat.div_add by lia.
    replace (2 * h)%nat with (h * 2)%nat by lia.
    now rewrite Nat.div_mul by lia. }
  f_equal. apply map_ext_in. intros j Hj. apply in_seq in Hj.
  assert (length _ints / 2 = h)%nat as Hhalf
    by (rewrite Hh; replace (2 * h)%nat with (h * 2)%nat by lia;
        now rewrite Nat.div_mul by lia).
  assert (2 <= length _ints)%nat by (simpl; lia).
  now rewrite !axis_sum_app by lia.
Qed.

End Coordinates.

(** ** [__decode_will_coordinates] on the float of Python *)

Section Coordinates64.
Variable numpy_average : list spec_float -> spec_float.
Local Abbreviation B64 := (Binary64 numpy_average).

Lemma divide_point64_fits (_p a b : Z) :
  0 < _p -> fits a _p -> fits b _p ->
  exists fa fb : spec_float,
    truediv64 a _p = Ok fa /\ truediv64 b _p = Ok fb
    /\ divide_point (H := B64) _p (a, b) = Ok (fa, fb).
Proof.
  intros Hp Ha Hb.
  destruct (truediv64_fits a _p Hp Ha) as [fa Hfa].
  destruct (truediv64_fits b _p Hp Hb) as [fb Hfb].
  exists fa, fb. unfold divide_point. cbn [truediv Binary64 fst snd].
  now rewrite Hfa, Hfb.
Qed.

Lemma divide_point64_raise (_p : Z) (pt : Z * Z) (e : exn) :
  0 < _p ->
  divide_point (H := B64) _p pt = Raise e ->
  e = OverflowError /\ ~ (fits (fst pt) _p /\ fits (snd pt) _p).
Proof.
  intros Hp. unfold divide_point. cbn [truediv Binary64].
  destruct (truediv64 (fst pt) _p) as [fa|e1] eqn:Ha; cbn [mbind result_bind].
  - destruct (truediv64 (snd pt) _p) as [fb|e2] eqn:Hb; cbn [mbind result_bind];
      [discriminate|].
    intros [= <-]. destruct (truediv64_raise _ _ _ Hp Hb) as [-> Hno].
    split; [reflexivity|tauto].
  - intros [= <-]. destruct (truediv64_raise _ _ _ Hp Ha) as [-> Hno].
    split; [reflexivity|tauto].
Qed.

Lemma divide_point64_ok (_p : Z) (pt : Z * Z) (q : spec_float * spec_float) :
  0 < _p ->
  divide_point (H := B64) _p pt = Ok q ->
  truediv64 (fst pt) _p = Ok (fst q) /\ truediv64 (snd pt) _p = Ok (snd q)
  /\ fits (fst pt) _p /\ fits (snd pt) _p.
Proof.
  intros Hp. unfold divide_point. cbn [truediv Binary64].
  destruct (truediv64 (fst pt) _p) as [fa|e1] eqn:Ha; cbn [mbind result_bind];
    [|discriminate].
  destruct (truediv64 (snd pt) _p) as [fb|e2] eqn:Hb; cbn [mbind result_bind];
    [|discriminate].
  intros [= <-]. cbn [fst snd]. repeat split; eauto using truediv64_ok.
Qed.

(** When every coordinate is in range, the points are returned. *)
Lemma coordinates64_returns (x y : Z) (rest : list Z) (_precision : N) :
  points_fit (x :: y :: rest) _precision (S (length (x :: y :: rest) / 2 - 2)) ->
  exists pts : list (spec_float * spec_float),
    __decode_will_coordinates (H := B64) (x :: y :: rest) _precision = Ok pts
    /\ length pts = S (length (x :: y :: rest) / 2 - 2)
    /\ forall j : nat,
        (j < S (length (x :: y :: rest) / 2 - 2))%nat ->
        exists fx fy : spec_float,
          truediv64 (axis_sum (x :: y :: rest) 0 j) (10 ^ Z.of_N _precision) = Ok fx
          /\ truediv64 (axis_sum (x :: y :: rest) 1 j) (10 ^ Z.of_N _precision) = Ok fy
          /\ pts !! j = Some (fx, fy).
Proof.
  intros Hfit. rewrite decode_will_coordinates_closed.
  set (_ints := x :: y :: rest) in *. set (n := S (length _ints / 2 - 2)) in *.
  pose proof (pow10_pos _precision) as Hp.
  destruct (map_result_returns (divide_point (H := B64) (10 ^ Z.of_N _precision))
              (map (fun j => (axis_sum _ints 0 j, axis_sum _ints 1 j)) (seq 0 n)))
    as [pts Hpts].
  { intros pt Hpt. apply in_map_iff in Hpt as (j & <- & Hj). apply in_seq in Hj.
    destruct (Hfit j) as [Hx Hy]; [lia|].
    destruct (divide_point64_fits _ _ _ Hp Hx Hy) as (fa & fb & _ & _ & Hdiv).
    now exists (fa, fb). }
  exists pts. split; [exact Hpts|].
  apply map_result_ok in Hpts.
  split.
  { pose proof (Forall2_length _ _ _ Hpts) as Hl.
    rewrite length_map, length_seq in Hl. now symmetry. }
  intros j Hj.
  destruct (Forall2_lookup_l _ _ _ j (axis_sum _ints 0 j, axis_sum _ints 1 j) Hpts)
    as ([fx fy] & Hlook & Hdiv).
  { change map with (@fmap list _).
    now rewrite list_lookup_fmap, lookup_seq_lt by lia. }
  apply (divide_point64_ok _ _ _ Hp) in Hdiv as (Hx & Hy & _).
  now exists fx, fy.
Qed.

(** The only exception of two integers or more is that of a coordinate
    out of range. *)
Lemma coordinates64_raise (x y : Z) (rest : list Z) (_precision : N) (e : exn) :
  __decode_will_coordinates (H := B64) (x :: y :: rest) _precision = Raise e ->
  e = OverflowError
  /\ ~ points_fit (x :: y :: rest) _precision (S (length (x :: y :: rest) / 2 - 2)).
Proof.
  rewrite decode_will_coordinates_closed. intros Hraise.
  apply map_result_raise in Hraise as (pt & Hpt & Hdiv).
  apply in_map_iff in Hpt as (j & <- & Hj). apply in_seq in Hj.
  apply (divide_point64_raise _ _ _ (pow10_pos _precision)) in Hdiv as [-> Hno].
  split; [reflexivity|]. intros Hfit. apply Hno. apply Hfit. lia.
Qed.

Lemma coordinates64_ok (x y : Z) (rest : list Z) (_precision : N)
    (pts : list (spec_float * spec_float)) :
  __decode_will_coordinates (H := B64) (x :: y :: rest) _precision = Ok pts ->
  length pts = S (length (x :: y :: rest) / 2 - 2)
  /\ points_fit (x :: y :: rest) _precision (S (length (x :: y :: rest) / 2 - 2)).
Proof.
  rewrite decode_will_coordinates_closed. intros Hok.
  apply map_result_ok in Hok. split.
  - pose proof (Forall2_length _ _ _ Hok) as Hl.
    rewrite length_map, length_seq in Hl. now symmetry.
  - intros j Hj.
    destruct (Forall2_lookup_l _ _ _ j
                (axis_sum (x :: y :: rest) 0 j, axis_sum (x :: y :: rest) 1 j) Hok)
      as (q & _ & Hdiv).
    { change map with (@fmap list _).
      now rewrite list_lookup_fmap, lookup_seq_lt by lia. }
    now apply (divide_point64_ok _ _ _ (pow10_pos _precision)) in Hdiv
      as (_ & _ & Hx & Hy).
Qed.

Lemma coordinates64_overflow (x y : Z) (rest : list Z) (_precision : N) :
  ~ points_fit (x :: y :: rest) _precision (S (length (x :: y :: rest) / 2 - 2)) ->
  __decode_will_coordinates (H := B64) (x :: y :: rest) _precision
  = Raise OverflowError.
Proof.
  intros Hno.
  destruct (__decode_will_coordinates (H := B64) (x :: y :: rest) _precision)
    as [pts|e] eqn:Hrun.
  - now apply coordinates64_ok in Hrun as [_ Hfit].
  - now apply coordinates64_raise in Hrun as [-> _].
Qed.

(** C1 fails on the code: the first point is
    [(ints[0] / 10^p, ints[1] / 10^p)], but for four integers or more the
    reconstruction loop, [range(2, _l)], runs one time too few: whenever
    points are returned they are one fewer than [len(ints)/2], the last
    pair is never read.  They are returned when the coordinates of these
    points are in the range of a float; when one is not, the division
    raises an [OverflowError]. *)
Theorem decode_will_coordinates_count (x y : Z) (rest : list Z) (_precision : N) :
  (2 <= length rest)%nat ->
  (forall pts : list (spec_float * spec_float),
      __decode_will_coordinates (H := B64) (x :: y :: rest) _precision = Ok pts ->
      length pts = (length (x :: y :: rest) / 2 - 1)%nat)
  /\ (points_fit (x :: y :: rest) _precision (length (x :: y :: rest) / 2 - 1) ->
      exists (fx fy : spec_float) (pts : list (spec_float * spec_float)),
        truediv64 x (10 ^ Z.of_N _precision) = Ok fx
        /\ truediv64 y (10 ^ Z.of_N _precision) = Ok fy
        /\ __decode_will_coordinates (H := B64) (x :: y :: rest) _precision
           = Ok ((fx, fy) :: pts)
        /\ S (length pts) = (length (x :: y :: rest) / 2 - 1)%nat)
  /\ (~ points_fit (x :: y :: rest) _precision (length (x :: y :: rest) / 2 - 1) ->
      __decode_will_coordinates (H := B64) (x :: y :: rest) _precision
      = Raise OverflowError).
Proof.
  intros Hlen.
  pose proof (Nat.div_mod_eq (length (x :: y :: rest)) 2) as Hdiv.
  pose proof (Nat.mod_upper_bound (length (x :: y :: rest)) 2) as Hmod.
  assert (S (length (x :: y :: rest) / 2 - 2) = length (x :: y :: rest) / 2 - 1)%nat
    as Hn by (simpl length in *; lia).
  split; [|split].
  - intros pts Hpts. apply coordinates64_ok in Hpts as [-> _]. exact Hn.
  - intros Hfit. rewrite <- Hn in Hfit.
    destruct (coordinates64_returns x y rest _precision Hfit)
      as (pts & Hrun & Hpts & Hlook).
    destruct (Hlook 0%nat) as (fx & fy & Hx & Hy & Hhd); [lia|].
    rewrite (axis_sum_0 _ 0 x) in Hx by reflexivity.
    rewrite (axis_sum_0 _ 1 y) in Hy by reflexivity.
    destruct pts as [|pt pts]; [discriminate|]. injection Hhd as ->.
    exists fx, fy, pts. repeat split; try assumption.
    rewrite <- Hn. exact Hpts.
  - intros Hno. rewrite <- Hn in Hno. now apply coordinates64_overflow.
Qed.

(** C2 fails on the code: on [4, 6, 2, -2, 0, 4] at precision 2 the
    points returned are two, the floats [(0.04, 0.06)] and [(0.06, 0.04)];
    the pair [(0, 4)] is never added. *)
Theorem decode_will_coordinates_example :
  __decode_will_coordinates (H := B64) [4; 6; 2; -2; 0; 4] 2
  = Ok [(S754_finite false 5764607523034235 (-57),
         S754_finite false 8646911284551352 (-57));
        (S754_finite false 8646911284551352 (-57),
         S754_finite false 5764607523034235 (-57))].
Proof. reflexivity. Qed.

(** C6, as the code has it: point decoding raises an [IndexError] on
    fewer than two integers.  On two or more it raises exactly when a
    coordinate of a point it builds is out of the range of a float, and
    then an [OverflowError]; when these coordinates are in range it
    returns points, the first of them [(ints[0] / 10^p, ints[1] / 10^p)].
    An odd number of integers is no error: the integer left over behind
    the last pair is not read, the result is that of the sequence without
    it. *)
Theorem decode_will_coordinates_raises_iff
    (_ints : list Z) (_precision : N) :
  match _ints with
  | x :: y :: _ =>
      (forall e : exn,
          __decode_will_coordinates (H := B64) _ints _precision = Raise e
          <-> e = OverflowError
              /\ ~ points_fit _ints _precision (S (length _ints / 2 - 2)))
      /\ (points_fit _ints _precision (S (length _ints / 2 - 2)) ->
          exists (fx fy : spec_float) (pts : list (spec_float * spec_float)),
            truediv64 x (10 ^ Z.of_N _precision) = Ok fx
            /\ truediv64 y (10 ^ Z.of_N _precision) = Ok fy
            /\ __decode_will_coordinates (H := B64) _ints _precision
               = Ok ((fx, fy) :: pts))
      /\ (forall z : Z,
            Nat.Even (length _ints) ->
            __decode_will_coordinates (H := B64) (_ints ++ [z]) _precision
            = __decode_will_coordinates (H := B64) _ints _precision)
  | _ => __decode_will_coordinates (H := B64) _ints _precision = Raise IndexError
  end.
Proof.
  destruct _ints as [|x [|y rest]]; [reflexivity..|].
  split; [|split].
  - intros e. split.
    + apply coordinates64_raise.
    + intros [-> Hno]. now apply coordinates64_overflow.
  - intros Hfit.
    destruct (coordinates64_returns x y rest _precision Hfit)
      as (pts & Hrun & Hpts & Hlook).
    destruct (Hlook 0%nat) as (fx & fy & Hx & Hy & Hhd); [lia|].
    rewrite (axis_sum_0 _ 0 x) in Hx by reflexivity.
    rewrite (axis_sum_0 _ 1 y) in Hy by reflexivity.
    destruct pts as [|pt pts]; [discriminate|]. injection Hhd as ->.
    now exists fx, fy, pts.
  - intros z Heven. now apply decode_will_coordinates_unpaired.
Qed.

End Coordinates64.

Lemma points_fit_seq (ints : list Z) (p : N) (n : nat) :
  Forall (fun j => fits (axis_sum ints 0 j) (10 ^ Z.of_N p)
                   /\ fits (axis_sum ints 1 j) (10 ^ Z.of_N p)) (seq 0 n) ->
  points_fit ints p n.
Proof.
  intros Hall j Hj. rewrite List.Forall_forall in Hall. apply Hall.
  apply in_seq. lia.
Qed.

Lemma scalars_fit_seq (ints : list Z) (p : N) :
  Forall (fun i => fits (prefix_sum ints i) (10 ^ Z.of_N p)) (seq 0 (length ints)) ->
  scalars_fit ints p.
Proof.
  intros Hall i Hi. rewrite List.Forall_forall in Hall. apply Hall.
  apply in_seq. lia.
Qed.

(** The range conditions of a given sequence, index by index. *)
Ltac fit_by_cases :=
  first [apply points_fit_seq | apply scalars_fit_seq];
  match goal with
  | |- Forall _ ?l => let l' := eval vm_compute in l in change l with l'
  end;
  repeat (apply List.Forall_cons; [vm_compute; repeat split; reflexivity|]);
  apply List.Forall_nil.

Lemma decode_will_coordinates_count_witness :
  (2 <= length [3; 4]%Z)%nat /\
  points_fit (1 :: 2 :: [3; 4]) 0 (length (1 :: 2 :: [3; 4])%Z / 2 - 1) /\
  (forall pts : list (spec_float * spec_float),
      __decode_will_coordinates (H := Binary64 sample_average) (1 :: 2 :: [3; 4]) 0
      = Ok pts ->
      length pts = (length (1 :: 2 :: [3; 4])%Z / 2 - 1)%nat) /\
  exists (fx fy : spec_float) (pts : list (spec_float * spec_float)),
    truediv64 1 (10 ^ Z.of_N 0) = Ok fx
    /\ truediv64 2 (10 ^ Z.of_N 0) = Ok fy
    /\ __decode_will_coordinates (H := Binary64 sample_average) (1 :: 2 :: [3; 4]) 0
       = Ok ((fx, fy) :: pts)
    /\ S (length pts) = (length (1 :: 2 :: [3; 4])%Z / 2 - 1)%nat.
Proof.
  assert (2 <= length [3; 4]%Z)%nat as Hlen by (simpl; lia).
  assert (points_fit (1 :: 2 :: [3; 4]) 0 (length (1 :: 2 :: [3; 4])%Z / 2 - 1))
    as Hfit by fit_by_cases.
  split; [exact Hlen|]. split; [exact Hfit|].
  destruct (decode_will_coordinates_count sample_average 1 2 [3; 4] 0 Hlen)
    as (Hcount & Hreturns & _).
  split; [exact Hcount|exact (Hreturns Hfit)].
Defined.

Lemma decode_will_coordinates_raises_iff_witness :
  points_fit [1; 2; 3; 4] 2 (S (length [1; 2; 3; 4]%Z / 2 - 2)) /\
  Nat.Even (length [1; 2; 3; 4]%Z) /\
  (forall e : exn,
      __decode_will_coordinates (H := Binary64 sample_average) [1; 2; 3; 4] 2 = Raise e
      <-> e = OverflowError
          /\ ~ points_fit [1; 2; 3; 4] 2 (S (length [1; 2; 3; 4]%Z / 2 - 2)))
  /\ (exists (fx fy : spec_float) (pts : list (spec_float * spec_float)),
        truediv64 1 (10 ^ Z.of_N 2) = Ok fx
        /\ truediv64 2 (10 ^ Z.of_N 2) = Ok fy
        /\ __decode_will_coordinates (H := Binary64 sample_average) [1; 2; 3; 4] 2
           = Ok ((fx, fy) :: pts))
  /\ __decode_will_coordinates (H := Binary64 sample_average) ([1; 2; 3; 4] ++ [5]) 2
     = __decode_will_coordinates (H := Binary64 sample_average) [1; 2; 3; 4] 2.
Proof.
  assert (points_fit [1; 2; 3; 4] 2 (S (length [1; 2; 3; 4]%Z / 2 - 2))) as Hfit
    by fit_by_cases.
  assert (Nat.Even (length [1; 2; 3; 4]%Z)) as Heven by (exists 2%nat; reflexivity).
  split; [exact Hfit|]. split; [exact Heven|].
  destruct (decode_will_coordinates_raises_iff sample_average [1; 2; 3; 4] 2)
    as (Hraise & Hreturns & Hunpaired).
  split; [exact Hraise|]. split; [exact (Hreturns Hfit)|exact (Hunpaired 5 Heven)].
Defined.

(** C6 as stated fails: three integers, an odd number, and a point, the
    float pair [(1.0, 2.0)], is returned. *)
Lemma decode_will_coordinates_odd_returns :
  Nat.Odd (length [1; 2; 3]%Z) /\
  __decode_will_coordinates (H := Binary64 sample_average) [1; 2; 3] 0
  = Ok [(float_of_Z 1, float_of_Z 2)].
Proof.
  split; [exists 1%nat; reflexivity|reflexivity].
Qed.

(** ** [__decode_delta_encoded] *)

Lemma prefix_sum_0 (ints : list Z) (x : Z) :
  ints !! 0%nat = Some x -> prefix_sum ints 0 = x.
Proof. destruct ints; intros [= ->]. unfold prefix_sum. simpl. lia. Qed.

Lemma prefix_sum_S (ints : list Z) (i : nat) (x : Z) :
  ints !! S i = Some x -> prefix_sum ints (S i) = prefix_sum ints i + x.
Proof.
  intros Hx. unfold prefix_sum. now rewrite (take_S_r _ _ _ Hx), sum_snoc.
Qed.

(** After the iterations [1..k] of the summing loop, the positions up to
    [k] hold prefix sums and those behind it are untouched. *)
Lemma delta_loop (ints : list Z) (k : nat) :
  (k < length ints)%nat ->
  exists l : list Z,
    for_each delta_step (seq 1 k) ints = Ok l
    /\ length l = length ints
    /\ forall j : nat,
        (j < length ints)%nat ->
        l !! j = if decide (j <= k)%nat then Some (prefix_sum ints j) else ints !! j.
Proof.
  induction k as [|k IH]; intros Hk.
  - exists ints. repeat split. intros j Hj. case_decide; [|reflexivity].
    replace j with 0%nat by lia.
    destruct (lookup_lt_is_Some_2 ints 0 Hk) as [x Hx].
    now rewrite (prefix_sum_0 _ _ Hx).
  - destruct IH as (l & Hrun & Hl & Hlook); [lia|].
    rewrite seq_S, for_each_app, Hrun.
    cbn [mbind result_bind for_each]. unfold delta_step, index.
    replace (1 + k - 1)%nat with k by lia. change (1 + k)%nat with (S k).
    destruct (lookup_lt_is_Some_2 ints (S k) Hk) as [x Hx].
    rewrite (Hlook k), (Hlook (S k)) by lia.
    destruct (decide (k <= k)%nat); [|lia].
    destruct (decide (S k <= k)%nat); [lia|].
    rewrite Hx. cbn [mbind result_bind].
    eexists. split; [reflexivity|]. split; [now rewrite length_insert|].
    intros j Hj. destruct (decide (j = S k)) as [->|Hne].
    + rewrite list_lookup_insert_eq, decide_True by lia.
      now rewrite (prefix_sum_S _ _ _ Hx).
    + rewrite list_lookup_insert_ne, Hlook by (assumption || lia).
      repeat case_decide; (reflexivity || lia).
Qed.

(** The two loops in one, for any float: the prefix sums, divided in
    order. *)
Lemma decode_delta_encoded_closed `{PyFloat} (_ints : list Z) (_precision : N) :
  __decode_delta_encoded _ints _precision
  = map_result (fun v => truediv v (10 ^ Z.of_N _precision))
      (map (prefix_sum _ints) (seq 0 (length _ints))).
Proof.
  unfold __decode_delta_encoded, pow10. cbv zeta.
  destruct _ints as [|x rest] eqn:Hints; [reflexivity|].
  rewrite <- Hints.
  destruct (delta_loop _ints (length _ints - 1)) as (l & -> & Hl & Hlook);
    [subst; simpl; lia|].
  cbn [mbind result_bind]. f_equal.
  apply (list_eq_same_length _ _ (length _ints)).
  - now rewrite length_map, length_seq.
  - exact Hl.
  - intros i v v' Hi Hv Hv'. rewrite Hlook, decide_True in Hv by lia.
    change map with (@fmap list _) in Hv'.
    rewrite list_lookup_fmap, lookup_seq_lt in Hv' by lia.
    cbn [fmap option_fmap option_map Nat.add] in Hv'. congruence.
Qed.

Section Scalars64.
Variable numpy_average : list spec_float -> spec_float.
Local Abbreviation B64 := (Binary64 numpy_average).

Lemma scalars64_returns (_ints : list Z) (_precision : N) :
  scalars_fit _ints _precision ->
  exists out : list spec_float,
    __decode_delta_encoded (H := B64) _ints _precision = Ok out
    /\ length out = length _ints
    /\ forall i : nat,
        (i < length _ints)%nat ->
        exists q : spec_float,
          truediv64 (prefix_sum _ints i) (10 ^ Z.of_N _precision) = Ok q
          /\ out !! i = Some q.
Proof.
  intros Hfit. rewrite decode_delta_encoded_closed.
  pose proof (pow10_pos _precision) as Hp.
  destruct (map_result_returns
              (fun v => @truediv B64 v (10 ^ Z.of_N _precision))
              (map (prefix_sum _ints) (seq 0 (length _ints)))) as [out Hout].
  { intros v Hv. apply in_map_iff in Hv as (i & <- & Hi). apply in_seq in Hi.
    apply (truediv64_fits _ _ Hp). apply Hfit. lia. }
  exists out. split; [exact Hout|].
  apply map_result_ok in Hout. split.
  { pose proof (Forall2_length _ _ _ Hout) as Hl.
    rewrite length_map, length_seq in Hl. now symmetry. }
  intros i Hi.
  destruct (Forall2_lookup_l _ _ _ i (prefix_sum _ints i) Hout) as (q & Hlook & Hdiv).
  { change map with (@fmap list _).
    now rewrite list_lookup_fmap, lookup_seq_lt by lia. }
  now exists q.
Qed.

Lemma scalars64_raise (_ints : list Z) (_precision : N) (e : exn) :
  __decode_delta_encoded (H := B64) _ints _precision = Raise e ->
  e = OverflowError /\ ~ scalars_fit _ints _precision.
Proof.
  rewrite decode_delta_encoded_closed. intros Hraise.
  apply map_result_raise in Hraise as (v & Hv & Hdiv).
  apply in_map_iff in Hv as (i & <- & Hi). apply in_seq in Hi.
  apply (truediv64_raise _ _ _ (pow10_pos _precision)) in Hdiv as [-> Hno].
  split; [reflexivity|]. intros Hfit. apply Hno. apply Hfit. lia.
Qed.

Lemma scalars64_ok (_ints : list Z) (_precision : N) (out : list spec_float) :
  __decode_delta_encoded (H := B64) _ints _precision = Ok out ->
  length out = length _ints /\ scalars_fit _ints _precision.
Proof.
  rewrite decode_delta_encoded_closed. intros Hok.
  apply map_result_ok in Hok. split.
  - pose proof (Forall2_length _ _ _ Hok) as Hl.
    rewrite length_map, length_seq in Hl. now symmetry.
  - intros i Hi.
    destruct (Forall2_lookup_l _ _ _ i (prefix_sum _ints i) Hok) as (q & _ & Hdiv).
    { change map with (@fmap list _).
      now rewrite list_lookup_fmap, lookup_seq_lt by lia. }
    exact (truediv64_ok _ _ _ (pow10_pos _precision) Hdiv).
Qed.

Lemma scalars64_overflow (_ints : list Z) (_precision : N) :
  ~ scalars_fit _ints _precision ->
  __decode_delta_encoded (H := B64) _ints _precision = Raise OverflowError.
Proof.
  intros Hno.
  destruct (__decode_delta_encoded (H := B64) _ints _precision) as [out|e] eqn:Hrun.
  - now apply scalars64_ok in Hrun as [_ Hfit].
  - now apply scalars64_raise in Hrun as [-> _].
Qed.

(** C7, as the code has it: on a non-empty sequence whose prefix sums are
    in the range of a float once divided by [10^p], scalar decoding
    returns as many values as it was given integers, the [i]-th of them
    the quotient of the prefix sum [ints[0] + ... + ints[i]] by [10^p],
    rounded to a float; when a prefix sum is out of that range it raises
    an [OverflowError]. *)
Theorem decode_delta_encoded_prefix_sums (_ints : list Z) (_precision : N) :
  _ints <> [] ->
  (scalars_fit _ints _precision ->
   exists out : list spec_float,
     __decode_delta_encoded (H := B64) _ints _precision = Ok out
     /\ length out = length _ints
     /\ forall i : nat,
         (i < length _ints)%nat ->
         exists q : spec_float,
           truediv64 (prefix_sum _ints i) (10 ^ Z.of_N _precision) = Ok q
           /\ out !! i = Some q)
  /\ (~ scalars_fit _ints _precision ->
      __decode_delta_encoded (H := B64) _ints _precision = Raise OverflowError).
Proof.
  intros _. split.
  - apply scalars64_returns.
  - apply scalars64_overflow.
Qed.

End Scalars64.

Lemma decode_delta_encoded_prefix_sums_witness :
  [100; 10; -5] <> [] /\
  scalars_fit [100; 10; -5] 2 /\
  exists out : list spec_float,
    __decode_delta_encoded (H := Binary64 sample_average) [100; 10; -5] 2 = Ok out
    /\ length out = length [100; 10; -5]
    /\ forall i : nat,
        (i < length [100; 10; -5]%Z)%nat ->
        exists q : spec_float,
          truediv64 (prefix_sum [100; 10; -5] i) (10 ^ Z.of_N 2) = Ok q
          /\ out !! i = Some q.
Proof.
  assert ([100; 10; -5] <> []) as Hne by discriminate.
  assert (scalars_fit [100; 10; -5] 2) as Hfit by fit_by_cases.
  split; [exact Hne|]. split; [exact Hfit|].
  exact (proj1 (decode_delta_encoded_prefix_sums sample_average [100; 10; -5] 2 Hne)
           Hfit).
Defined.

(** C7 as stated fails: on [100, 10, -5] at precision 2 the second value
    returned is the float 1.1, and 1.1 times 100, the float
    110.00000000000001, is not the prefix sum 110. *)
Lemma decode_delta_encoded_product_differs :
  exists a b c : spec_float,
    __decode_delta_encoded (H := Binary64 sample_average) [100; 10; -5] 2
    = Ok [a; b; c]
    /\ prefix_sum [100; 10; -5] 1 = 110
    /\ SFcompare (SFmul 53 1024 b (float_of_Z (10 ^ 2))) (float_of_Z 110) = Some Gt.
Proof.
  do 3 eexists. split; [reflexivity|]. split; reflexivity.
Qed.

(** ** The second loop of [__read_will_paths] *)

Section Assembly.
Context `{PyFloat}.

(** C10: the dict of a record is a function of its fields 3, 4, 5 and 6
    alone; [startParameter], [endParameter] and [unknown] are not read. *)
Theorem read_path_ignores_fields_1_2_9 (p1 p2 : Path.t) :
  Path.decimalPrecision p1 = Path.decimalPrecision p2 ->
  Path.points p1 = Path.points p2 ->
  Path.strokeWidths p1 = Path.strokeWidths p2 ->
  Path.strokeColor p1 = Path.strokeColor p2 ->
  read_path p1 = read_path p2.
Proof.
  intros Hprecision Hpoints Hwidths Hcolor. unfold read_path.
  now rewrite Hprecision, Hpoints, Hwidths, Hcolor.
Qed.

End Assembly.

Section Assembly64.
Variable numpy_average : list spec_float -> spec_float.
Local Abbreviation B64 := (Binary64 numpy_average).

(** The dict of a record, from what the two decoders return. *)
Lemma read_path_ok (p : Path.t (H := B64)) (d : _path_dict (H := B64)) :
  read_path p = Ok d
  <-> exists (pts : list (spec_float * spec_float)) (ws : list spec_float),
        __decode_will_coordinates (H := B64)
          (__read_packed_sint32 (Path.points p)) (Path.decimalPrecision p) = Ok pts
        /\ __decode_delta_encoded (H := B64)
             (__read_packed_sint32 (Path.strokeWidths p)) (Path.decimalPrecision p)
           = Ok ws
        /\ d = @Build__path_dict B64 pts ws (numpy_average ws)
                 (__read_packed_sint32 (Path.strokeColor p)).
Proof.
  unfold read_path. cbv zeta.
  destruct (__decode_will_coordinates (H := B64) _ _) as [pts|e1];
    cbn [mbind result_bind].
  - destruct (__decode_delta_encoded (H := B64) _ _) as [ws|e2];
      cbn [mbind result_bind].
    + split.
      * intros [= <-]. now exists pts, ws.
      * intros (pts' & ws' & [= <-] & [= <-] & ->). reflexivity.
    + split; [discriminate|]. now intros (? & ? & _ & ? & _).
  - split; [discriminate|]. now intros (? & ? & ? & _).
Qed.


End Assembly64.



Lemma read_path_ignores_fields_1_2_9_witness :
  Path.decimalPrecision sample_path = Path.decimalPrecision sample_path_reparametrized /\
  Path.points sample_path = Path.points sample_path_reparametrized /\
  Path.strokeWidths sample_path = Path.strokeWidths sample_path_reparametrized /\
  Path.strokeColor sample_path = Path.strokeColor sample_path_reparametrized /\
  read_path sample_path = read_path sample_path_reparametrized.
Proof.
  repeat (split; [reflexivity|]).
  apply (read_path_ignores_fields_1_2_9 sample_path sample_path_reparametrized
           eq_refl eq_refl eq_refl eq_refl).
Defined.

(** ** The sample record, end to end *)

(** Two points and three widths on the wire; one point and three widths
    in the dict: the floats [(0.04, 0.06)], then [1.0], [1.1] and [1.05],
    with the float [1.05] for their average. *)
Example read_path_sample :
  read_path sample_path
  = Ok {| points := [(S754_finite false 5764607523034235 (-57),
                      S754_finite false 8646911284551352 (-57))];
          strokes := [S754_finite false 4503599627370496 (-52);
                      S754_finite false 4953959590107546 (-52);
                      S754_finite false 4728779608739021 (-52)];
          avg_width := S754_finite false 4728779608739021 (-52);
          color := [1] |}.
Proof. reflexivity. Qed.

(** Four integers, two pairs, and one point: [[1.0, 2.0]]. *)
Example decode_will_coordinates_two_pairs :
  __decode_will_coordinates (H := Sample64) [1; 2; 3; 4] 0
  = Ok [(S754_finite false 4503599627370496 (-52),
         S754_finite false 4503599627370496 (-51))].
Proof. reflexivity. Qed.

(** A quotient out of the range of a float is an [OverflowError], as
    Python's [int / int] has it. *)
Example decode_delta_encoded_overflow :
  __decode_delta_encoded (H := Sample64) [2 ^ 1100; 1] 0 = Raise OverflowError.
Proof. reflexivity. Qed.

Example frame_three_records :
  frame [x02; x0a; x0b; x00; x01; xff] = Ok [[x0a; x0b]; []; [xff]].
Proof. reflexivity. Qed.

(** The largest quotient that is a float, the first that is not, the
    rounding at that quotient, and the sign of a zero. *)
Example truediv64_largest :
  truediv64 (float_overflow - 1) 1 = Ok (S754_finite false 9007199254740991 971).
Proof. vm_compute. reflexivity. Qed.

Example truediv64_beyond : truediv64 float_overflow 1 = Raise OverflowError.
Proof. vm_compute. reflexivity. Qed.

Example round_beyond :
  (let '(q, e, l) := SFdiv_core_binary 53 1024 float_overflow 0 1 0 in
   binary_round_aux 53 1024 false q e l) = S754_infinity false.
Proof. vm_compute. reflexivity. Qed.

Example truediv64_negative_zero : truediv64 0 (-5) = Ok (S754_zero true).
Proof. vm_compute. reflexivity. Qed.
(** * Further properties of the decoding path *)

(** ** [__read_packed_sint32], whole fields *)

(** The integers already appended ride along: the loop from a state is
    the loop from the same state with no integers, behind them. *)
Lemma packed_run_prefix (bs : list byte) :
  forall (ints : list Z) (l i : Z),
    fold_left Packed.step bs
      {| Packed._ints := ints; Packed.__l := l; Packed.__i := i |} =
    {| Packed._ints :=
         ints ++ Packed._ints
                   (fold_left Packed.step bs
                      {| Packed._ints := []; Packed.__l := l; Packed.__i := i |});
       Packed.__l :=
         Packed.__l
           (fold_left Packed.step bs
              {| Packed._ints := []; Packed.__l := l; Packed.__i := i |});
       Packed.__i :=
         Packed.__i
           (fold_left Packed.step bs
              {| Packed._ints := []; Packed.__l := l; Packed.__i := i |}) |}.
Proof.
  induction bs as [|b bs IH]; intros ints l i.
  - simpl. now rewrite app_nil_r.
  - cbn [fold_left]. unfold Packed.step at 2 4 6 8. cbv zeta.
    cbn [Packed._ints Packed.__l Packed.__i].
    destruct (Z.land (byte_to_Z b) 128 =? 128).
    + apply IH.
    + rewrite (IH (ints ++ [_])), (IH ([] ++ [_])).
      cbn [Packed._ints Packed.__l Packed.__i app].
      now rewrite <- app_assoc.
Qed.

Lemma packed_step_ends (s : Packed.state) (b : byte) :
  ~ continues b ->
  Packed.step s b =
  {| Packed._ints :=
       Packed._ints s
       ++ [Packed.zigzag
             (Packed.__l s + Z.shiftl (byte_to_Z b mod 128) (7 * Packed.__i s))];
     Packed.__l := 0;
     Packed.__i := 0 |}.
Proof.
  intros Hb. unfold Packed.step. cbv zeta. rewrite land_0x80, land_0x7F.
  replace (128 <=? byte_to_Z b) with false; [reflexivity|].
  symmetry. apply Z.leb_gt. unfold continues in Hb. lia.
Qed.

(** X2: a field can be cut behind any byte that ends a varint; the
    integers of the whole are those of the two parts. *)
Theorem read_packed_app (pre post : list byte) (b : byte) :
  ~ continues b ->
  __read_packed_sint32 (pre ++ b :: post)
  = __read_packed_sint32 (pre ++ [b]) ++ __read_packed_sint32 post.
Proof.
  intros Hb. unfold __read_packed_sint32.
  replace (pre ++ b :: post) with ((pre ++ [b]) ++ post)
    by now rewrite <- app_assoc.
  rewrite (fold_left_app _ (pre ++ [b]) post).
  rewrite (fold_left_app _ pre [b]). cbn [fold_left].
  rewrite (packed_step_ends _ b Hb), packed_run_prefix. reflexivity.
Qed.

Lemma read_packed_app_witness :
  ~ continues x0c /\
  __read_packed_sint32 ([x88; x01] ++ x0c :: [x04; x03])
  = __read_packed_sint32 ([x88; x01] ++ [x0c]) ++ __read_packed_sint32 [x04; x03].
Proof.
  assert (~ continues x0c) as Hb by (unfold continues; vm_compute; tauto).
  split; [exact Hb|].
  apply (read_packed_app [x88; x01] [x04; x03] x0c Hb).
Defined.

Lemma packed_run_sint32 (v : Z) (rest : list byte) (ints : list Z) :
  - 2 ^ 31 <= v < 2 ^ 31 ->
  fold_left Packed.step (Wire.encode_sint32 v ++ rest)
    {| Packed._ints := ints; Packed.__l := 0; Packed.__i := 0 |} =
  fold_left Packed.step rest
    {| Packed._ints := ints ++ [v]; Packed.__l := 0; Packed.__i := 0 |}.
Proof.
  intros Hv. unfold Wire.encode_sint32.
  rewrite fold_left_app, packed_run_varint by (simpl; lia).
  cbn [Packed._ints Packed.__l Packed.__i].
  rewrite Z2N.id by now apply zigzag_encode_nonneg.
  change (2 ^ (7 * 0)) with 1.
  now rewrite Z.mul_1_r, Z.add_0_l, zigzag_decode_encode.
Qed.

(** X1: a packed field, the sint32 values written one after the other, is
    read back as the list of these values, in order. *)
Theorem read_packed_sint32_field (vs : list Z) :
  Forall (fun v => - 2 ^ 31 <= v < 2 ^ 31) vs ->
  __read_packed_sint32 (concat (map Wire.encode_sint32 vs)) = vs.
Proof.
  intros Hvs. unfold __read_packed_sint32, Packed.init.
  change vs with ([] ++ vs) at 2. generalize (@nil Z) as ints.
  induction Hvs as [|v vs Hv _ IH]; intros ints.
  - simpl. now rewrite app_nil_r.
  - cbn [map concat]. rewrite packed_run_sint32 by exact Hv.
    rewrite IH. now rewrite <- app_assoc.
Qed.

Lemma read_packed_sint32_field_witness :
  Forall (fun v => - 2 ^ 31 <= v < 2 ^ 31) [4; -6; 2147483647; -2147483648; 0] /\
  __read_packed_sint32
    (concat (map Wire.encode_sint32 [4; -6; 2147483647; -2147483648; 0]))
  = [4; -6; 2147483647; -2147483648; 0].
Proof.
  assert (Forall (fun v => - 2 ^ 31 <= v < 2 ^ 31)
            [4; -6; 2147483647; -2147483648; 0]) as Hvs
    by (repeat constructor; lia).
  split; [exact Hvs|].
  apply (read_packed_sint32_field [4; -6; 2147483647; -2147483648; 0] Hvs).
Defined.

(** X3: one integer is returned for each byte without continuation bit,
    whatever the bytes are. *)
Theorem read_packed_length (payload : list byte) :
  length (__read_packed_sint32 payload)
  = length (List.filter (fun b => byte_to_Z b <? 128) payload).
Proof.
  unfold __read_packed_sint32.
  change (length (List.filter (fun b => byte_to_Z b <? 128) payload))
    with (Nat.add (length (Packed._ints Packed.init))
            (length (List.filter (fun b => byte_to_Z b <? 128) payload))).
  generalize Packed.init as s.
  induction payload as [|b payload IH]; intros s.
  - simpl. lia.
  - cbn [fold_left List.filter]. rewrite IH.
    unfold Packed.step. cbv zeta. rewrite land_0x80.
    destruct (128 <=? byte_to_Z b) eqn:Hb.
    + apply Z.leb_le in Hb.
      replace (byte_to_Z b <? 128) with false by (symmetry; apply Z.ltb_ge; lia).
      reflexivity.
    + apply Z.leb_gt in Hb.
      replace (byte_to_Z b <? 128) with true by (symmetry; apply Z.ltb_lt; lia).
      cbn [Packed._ints length]. rewrite length_app. simpl. lia.
Qed.

(** X4: nothing is cut to 32 bits.  An integer of any size, written as
    the varint of its zigzag code ([2 v] for [v >= 0], [- 2 v - 1] below),
    is read back as itself. *)
Theorem read_packed_unbounded (v : Z) :
  __read_packed_sint32
    (Wire.encode_varint (Z.to_N (if v <? 0 then - 2 * v - 1 else 2 * v)))
  = [v].
Proof.
  unfold __read_packed_sint32.
  rewrite packed_run_varint by (simpl; lia).
  cbn [Packed._ints Packed.__l Packed.__i Packed.init app].
  change (2 ^ (7 * 0)) with 1. rewrite Z.mul_1_r, Z.add_0_l.
  destruct (v <? 0) eqn:Hneg.
  - apply Z.ltb_lt in Hneg. rewrite Z2N.id by lia.
    replace (- 2 * v - 1) with (2 * (- v - 1) + 1) by lia.
    rewrite zigzag_odd. f_equal. lia.
  - apply Z.ltb_ge in Hneg. rewrite Z2N.id by lia.
    now rewrite zigzag_even.
Qed.

(** ** The framing loop, any payload *)

(** A step keeps the invariant, and does the same behind sub-records
    collected earlier. *)
Lemma framing_step_prepend (ps : list (list byte)) (s : Framing.state) (b : byte) :
  framing_inv s ->
  exists s' : Framing.state,
    Framing.step s b = Ok s'
    /\ framing_inv s'
    /\ Framing.step (framing_prepend ps s) b = Ok (framing_prepend ps s').
Proof.
  intros Hinv. unfold Framing.step, framing_prepend.
  cbn [Framing._l Framing.__l Framing._paths Framing.__i].
  destruct (Framing._l s =? 0) eqn:Hl.
  - apply Z.eqb_eq in Hl.
    destruct (Z.land (byte_to_Z b) 128 =? 128); eexists;
      (split; [reflexivity|]); split; unfold framing_inv;
      cbn [Framing._l Framing.__l Framing._paths Framing.__i].
    + congruence.
    + reflexivity.
    + intros _. now destruct (Framing._paths s).
    + now rewrite app_assoc.
  - apply Z.eqb_neq in Hl. specialize (Hinv Hl).
    destruct (Framing._paths s) as [|cur qs _] using rev_ind; [congruence|].
    unfold index. rewrite !length_app. simpl length.
    replace (length qs + 1 - 1)%nat with (length qs + 0)%nat by lia.
    replace (length ps + (length qs + 1) - 1)%nat
      with (length (ps ++ qs) + 0)%nat by (rewrite length_app; lia).
    rewrite (app_assoc ps qs [cur]).
    rewrite !lookup_app_r by lia.
    replace (length qs + 0 - length qs)%nat with 0%nat by lia.
    replace (length (ps ++ qs) + 0 - length (ps ++ qs))%nat with 0%nat by lia.
    cbn [lookup list_lookup mbind result_bind].
    eexists. split; [reflexivity|]. split.
    + unfold framing_inv. cbn [Framing._l Framing._paths]. intros _.
      rewrite insert_app_r. now destruct qs.
    + cbn [Framing._l Framing.__l Framing._paths Framing.__i].
      rewrite !insert_app_r. now rewrite <- app_assoc.
Qed.

Lemma framing_run_prepend (ps : list (list byte)) (payload : list byte) :
  forall s : Framing.state,
    framing_inv s ->
    exists s' : Framing.state,
      for_each Framing.step payload s = Ok s'
      /\ for_each Framing.step payload (framing_prepend ps s)
         = Ok (framing_prepend ps s').
Proof.
  induction payload as [|b payload IH]; intros s Hinv.
  - exists s. now split.
  - destruct (framing_step_prepend ps s b Hinv) as (s1 & Hs1 & Hinv1 & Hps1).
    destruct (IH s1 Hinv1) as (s' & Hs' & Hps').
    exists s'. cbn [for_each]. rewrite Hs1, Hps1. now cbn [mbind result_bind].
Qed.

(** X5: framing goes record by record: behind complete sub-records [rs],
    each after the varint of its length, the rest of the payload is framed
    as it would be on its own, whatever it holds. *)
Theorem frame_app (rs : list (list byte)) (payload : list byte) :
  exists recs : list (list byte),
    frame payload = Ok recs
    /\ frame (Wire.encode_records rs ++ payload) = Ok (rs ++ recs).
Proof.
  unfold frame. change Framing.init with (Framing.between []) at 2.
  rewrite for_each_app, framing_run_records. cbn [mbind result_bind app].
  destruct (framing_run_prepend rs payload Framing.init) as (s' & Hs' & Hps');
    [easy|].
  unfold framing_prepend in Hps' at 1. cbn in Hps'. rewrite app_nil_r in Hps'.
  unfold Framing.between. rewrite Hs', Hps'.
  now exists (Framing._paths s').
Qed.

(** Every byte is either dropped, as part of a length, or copied to the
    end of the last sub-record. *)
Lemma framing_run_keeps (payload : list byte) :
  forall s s' : Framing.state,
    for_each Framing.step payload s = Ok s' ->
    exists kept : list byte,
      kept `sublist_of` payload
      /\ concat (Framing._paths s') = concat (Framing._paths s) ++ kept
      /\ (length (Framing._paths s') + length kept
          <= length (Framing._paths s) + length payload)%nat.
Proof.
  induction payload as [|b payload IH]; intros s s' Hrun.
  - injection Hrun as <-. exists []. rewrite app_nil_r. repeat split; [constructor|lia].
  - cbn [for_each] in Hrun.
    destruct (Framing.step s b) as [s1|e] eqn:Hstep; [|discriminate].
    cbn [mbind result_bind] in Hrun.
    destruct (IH s1 s' Hrun) as (kept & Hsub & Hcat & Hlen).
    unfold Framing.step in Hstep.
    destruct (Framing._l s =? 0).
    + exists kept. split; [now constructor|].
      destruct (Z.land (byte_to_Z b) 128 =? 128); injection Hstep as <-;
        cbn [Framing._paths] in *.
      * split; [exact Hcat|simpl; lia].
      * rewrite concat_app in Hcat. simpl in Hcat. rewrite app_nil_r in Hcat.
        split; [exact Hcat|]. rewrite length_app in Hlen. simpl in *. lia.
    + unfold index in Hstep.
      destruct (Framing._paths s) as [|cur qs _] using rev_ind;
        [discriminate|].
      rewrite length_app in Hstep. simpl length in Hstep.
      replace (length qs + 1 - 1)%nat with (length qs + 0)%nat in Hstep by lia.
      rewrite lookup_app_r in Hstep by lia.
      replace (length qs + 0 - length qs)%nat with 0%nat in Hstep by lia.
      cbn [lookup list_lookup mbind result_bind] in Hstep.
      rewrite insert_app_r in Hstep. injection Hstep as <-.
      cbn [Framing._paths] in *.
      exists (b :: kept). split; [now constructor|].
      rewrite !concat_app in *. simpl in *. rewrite !app_nil_r in *.
      rewrite Hcat, <- !app_assoc. split; [reflexivity|].
      rewrite !length_app in *. simpl in *. lia.
Qed.

(** X6: framing invents, repeats and reorders nothing: the sub-records,
    one after the other, are a subsequence of the payload, and they leave
    out a byte at least for each sub-record, its length. *)
Theorem frame_keeps_subsequence (payload : list byte) (recs : list (list byte)) :
  frame payload = Ok recs ->
  concat recs `sublist_of` payload
  /\ (length recs + length (concat recs) <= length payload)%nat.
Proof.
  unfold frame. intros Hrun.
  destruct (for_each Framing.step payload Framing.init) as [s'|e] eqn:Hs';
    [|discriminate].
  injection Hrun as <-.
  destruct (framing_run_keeps payload _ _ Hs') as (kept & Hsub & Hcat & Hlen).
  simpl in Hcat, Hlen. rewrite Hcat. split; [exact Hsub|exact Hlen].
Qed.

Lemma frame_keeps_subsequence_witness :
  frame [x02; x0a; x0b; x81; x00; x03; xff] = Ok [[x0a; x0b]; [x03]] /\
  concat [[x0a; x0b]; [x03]] `sublist_of` [x02; x0a; x0b; x81; x00; x03; xff] /\
  (length [[x0a; x0b]; [x03]] + length (concat [[x0a; x0b]; [x03]])
   <= length [x02; x0a; x0b; x81; x00; x03; xff])%nat.
Proof.
  assert (frame [x02; x0a; x0b; x81; x00; x03; xff] = Ok [[x0a; x0b]; [x03]])
    as Hrun by reflexivity.
  split; [exact Hrun|].
  apply (frame_keeps_subsequence _ _ Hrun).
Defined.

(** Padding bytes [0x80] of a length only move the shift index. *)
Lemma framing_run_padding (k : nat) :
  forall (ps : list (list byte)) (i : Z),
    for_each Framing.step (repeat x80 k)
      {| Framing._l := 0; Framing.__l := 0; Framing._paths := ps; Framing.__i := i |}
    = Ok {| Framing._l := 0; Framing.__l := 0; Framing._paths := ps;
            Framing.__i := i + Z.of_nat k |}.
Proof.
  induction k as [|k IH]; intros ps i.
  - simpl. now rewrite Z.add_0_r.
  - cbn [repeat for_each]. unfold Framing.step at 2.
    cbn [Framing._l Framing.__l Framing._paths Framing.__i Z.eqb].
    change (Z.land (byte_to_Z x80) 128 =? 128) with true.
    change (Z.land (byte_to_Z x80) 127) with 0.
    rewrite Z.shiftl_0_l, Z.add_0_r. cbn [mbind result_bind].
    rewrite IH. do 2 f_equal. lia.
Qed.

(** X7: the shift index is reset by the bytes of a sub-record only.  After
    an empty sub-record whose length 0 is written with [k] padding bytes,
    [0x80 ... 0x80 0x00], the next length [n] is read as [n * 128^k]: up to
    that many of the following bytes, later lengths and sub-records
    included, end up in one sub-record. *)
Theorem frame_padded_zero_length (rs : list (list byte)) (k : nat) (n : N)
    (body : list byte) :
  Z.of_nat (length body) <= Z.of_N n * 128 ^ Z.of_nat k ->
  frame (Wire.encode_records rs
         ++ (repeat x80 k ++ [x00]) ++ Wire.encode_varint n ++ body)
  = Ok (rs ++ [[]; body]).
Proof.
  intros Hlen. unfold frame. change Framing.init with (Framing.between []).
  rewrite for_each_app, framing_run_records. cbn [mbind result_bind app].
  rewrite for_each_app, for_each_app. unfold Framing.between.
  rewrite framing_run_padding. cbn [mbind result_bind for_each].
  unfold Framing.step at 2.
  cbn [Framing._l Framing.__l Framing._paths Framing.__i Z.eqb].
  change (Z.land (byte_to_Z x00) 128 =? 128) with false.
  change (Z.land (byte_to_Z x00) 127) with 0.
  rewrite Z.shiftl_0_l. cbn [mbind result_bind Z.add].
  rewrite for_each_app, framing_run_varint
    by (cbn [Framing._l Framing.__i]; lia).
  cbn [mbind result_bind]. cbv zeta.
  cbn [Framing._l Framing.__l Framing._paths Framing.__i].
  assert (2 ^ (7 * (0 + Z.of_nat k)) = 128 ^ Z.of_nat k) as Hpow.
  { rewrite Z.add_0_l, Z.pow_mul_r by lia. reflexivity. }
  destruct body as [|b body].
  - cbn [for_each mbind result_bind Framing._paths].
    now rewrite <- app_assoc.
  - rewrite (framing_run_body (b :: body) _ (rs ++ [[]]) []);
      cbn [Framing._l Framing._paths]; try easy.
    + cbn [mbind result_bind Framing._paths app]. now rewrite <- app_assoc.
    + rewrite Hpow. lia.
Qed.

Lemma frame_padded_zero_length_witness :
  Z.of_nat (length [x0a; x01; x0b]) <= Z.of_N 1 * 128 ^ Z.of_nat 1 /\
  frame (Wire.encode_records [[xff]]
         ++ (repeat x80 1 ++ [x00]) ++ Wire.encode_varint 1 ++ [x0a; x01; x0b])
  = Ok ([[xff]] ++ [[]; [x0a; x01; x0b]]).
Proof.
  assert (Z.of_nat (length [x0a; x01; x0b]) <= Z.of_N 1 * 128 ^ Z.of_nat 1)
    as Hlen by (vm_compute; discriminate).
  split; [exact Hlen|].
  apply (frame_padded_zero_length [[xff]] 1 1 [x0a; x01; x0b] Hlen).
Defined.

(** ** [__decode_will_coordinates], the points returned *)

Section CoordinatesSums.
Variable numpy_average : list spec_float -> spec_float.
Local Abbreviation B64 := (Binary64 numpy_average).

(** X8: the points that are returned are running sums along each axis:
    point [j] is [(ints[0] + ints[2] + ... + ints[2j]) / 10^p] and
    [(ints[1] + ints[3] + ... + ints[2j+1]) / 10^p], each quotient rounded
    to a float.  There is one point for two or three integers, and
    [len(ints)/2 - 1] points beyond.  They are returned when all these
    quotients are in the range of a float; otherwise the division raises
    an [OverflowError]. *)
Theorem decode_will_coordinates_sums (_ints : list Z) (_precision : N) :
  (2 <= length _ints)%nat ->
  (points_fit _ints _precision (S (length _ints / 2 - 2)) ->
   exists pts : list (spec_float * spec_float),
     __decode_will_coordinates (H := B64) _ints _precision = Ok pts
     /\ length pts = S (length _ints / 2 - 2)
     /\ forall j : nat,
         (j < length pts)%nat ->
         exists fx fy : spec_float,
           truediv64 (axis_sum _ints 0 j) (10 ^ Z.of_N _precision) = Ok fx
           /\ truediv64 (axis_sum _ints 1 j) (10 ^ Z.of_N _precision) = Ok fy
           /\ pts !! j = Some (fx, fy))
  /\ (~ points_fit _ints _precision (S (length _ints / 2 - 2)) ->
      __decode_will_coordinates (H := B64) _ints _precision = Raise OverflowError).
Proof.
  intros Hlen. destruct _ints as [|x [|y rest]]; [simpl in Hlen; lia..|].
  split.
  - intros Hfit.
    destruct (coordinates64_returns numpy_average x y rest _precision Hfit)
      as (pts & Hrun & Hpts & Hlook).
    exists pts. split; [exact Hrun|]. split; [exact Hpts|].
    intros j Hj. apply Hlook. now rewrite <- Hpts.
  - apply coordinates64_overflow.
Qed.

End CoordinatesSums.

Lemma decode_will_coordinates_sums_witness :
  (2 <= length [4; 6; 2; -2; 0; 4; 7]%Z)%nat /\
  points_fit [4; 6; 2; -2; 0; 4; 7] 2 (S (length [4; 6; 2; -2; 0; 4; 7]%Z / 2 - 2)) /\
  exists pts : list (spec_float * spec_float),
    __decode_will_coordinates (H := Binary64 sample_average) [4; 6; 2; -2; 0; 4; 7] 2
    = Ok pts
    /\ length pts = S (length [4; 6; 2; -2; 0; 4; 7]%Z / 2 - 2)
    /\ forall j : nat,
        (j < length pts)%nat ->
        exists fx fy : spec_float,
          truediv64 (axis_sum [4; 6; 2; -2; 0; 4; 7] 0 j) (10 ^ Z.of_N 2) = Ok fx
          /\ truediv64 (axis_sum [4; 6; 2; -2; 0; 4; 7] 1 j) (10 ^ Z.of_N 2) = Ok fy
          /\ pts !! j = Some (fx, fy).
Proof.
  assert (2 <= length [4; 6; 2; -2; 0; 4; 7]%Z)%nat as Hlen by (simpl; lia).
  assert (points_fit [4; 6; 2; -2; 0; 4; 7] 2
            (S (length [4; 6; 2; -2; 0; 4; 7]%Z / 2 - 2))) as Hfit by fit_by_cases.
  split; [exact Hlen|]. split; [exact Hfit|].
  exact (proj1 (decode_will_coordinates_sums sample_average
                  [4; 6; 2; -2; 0; 4; 7] 2 Hlen) Hfit).
Defined.

(** ** [__decode_delta_encoded], against the writer *)

Lemma prefix_sum_cons (d : Z) (ds : list Z) (i : nat) :
  prefix_sum (d :: ds) (S i) = d + prefix_sum ds i.
Proof. reflexivity. Qed.

Lemma prefix_sum_deltas (xs : list Z) :
  forall (prev : Z) (i : nat) (x : Z),
    xs !! i = Some x -> prefix_sum (deltas prev xs) i = x - prev.
Proof.
  induction xs as [|x0 xs IH]; intros prev i x Hx; [discriminate|].
  destruct i as [|i].
  - injection Hx as ->. unfold prefix_sum. simpl. lia.
  - cbn [deltas]. rewrite prefix_sum_cons, (IH x0 i x Hx). lia.
Qed.

Lemma length_deltas (xs : list Z) : forall prev : Z, length (deltas prev xs) = length xs.
Proof. induction xs as [|x xs IH]; intros prev; simpl; [reflexivity|now rewrite IH]. Qed.

(** The prefix sums of the differences of [xs] are [xs]. *)
Lemma prefix_sums_delta_encode (xs : list Z) :
  map (prefix_sum (delta_encode xs)) (seq 0 (length (delta_encode xs))) = xs.
Proof.
  unfold delta_encode. rewrite length_deltas.
  apply list_eq. intros i. change map with (@fmap list _).
  rewrite list_lookup_fmap.
  destruct (xs !! i) as [x|] eqn:Hx.
  - rewrite lookup_seq_lt by (apply lookup_lt_Some in Hx; exact Hx).
    cbn [fmap option_fmap option_map Nat.add].
    rewrite (prefix_sum_deltas xs 0 i x Hx). now rewrite Z.sub_0_r.
  - apply lookup_ge_None in Hx. rewrite lookup_seq_ge by lia. reflexivity.
Qed.

(** X9: scalar decoding undoes delta encoding: on the differences of the
    values [xs], each from the one before and the first from 0, it does
    what dividing the values [xs] themselves by [10^p], one after the
    other, does: for binary64 it returns the quotients of the [xs],
    rounded, when they are all in the range of a float, and raises an
    [OverflowError] when one is not. *)
Theorem decode_delta_encoded_round_trip
    (numpy_average : list spec_float -> spec_float) (xs : list Z) (_precision : N) :
  __decode_delta_encoded (H := Binary64 numpy_average) (delta_encode xs) _precision
  = map_result (fun x => truediv64 x (10 ^ Z.of_N _precision)) xs
  /\ ((forall x : Z, In x xs -> fits x (10 ^ Z.of_N _precision)) ->
      exists out : list spec_float,
        __decode_delta_encoded (H := Binary64 numpy_average)
          (delta_encode xs) _precision = Ok out
        /\ Forall2 (fun x q => truediv64 x (10 ^ Z.of_N _precision) = Ok q) xs out)
  /\ (~ (forall x : Z, In x xs -> fits x (10 ^ Z.of_N _precision)) ->
      __decode_delta_encoded (H := Binary64 numpy_average)
        (delta_encode xs) _precision = Raise OverflowError).
Proof.
  assert (__decode_delta_encoded (H := Binary64 numpy_average)
            (delta_encode xs) _precision
          = map_result (fun x => truediv64 x (10 ^ Z.of_N _precision)) xs) as Hrun.
  { rewrite decode_delta_encoded_closed. now rewrite prefix_sums_delta_encode. }
  pose proof (pow10_pos _precision) as Hp.
  split; [exact Hrun|]. rewrite Hrun. split.
  - intros Hfit.
    destruct (map_result_returns (fun x => truediv64 x (10 ^ Z.of_N _precision)) xs)
      as [out Hout].
    { intros x Hx. apply (truediv64_fits _ _ Hp). now apply Hfit. }
    exists out. split; [exact Hout|]. now apply map_result_ok.
  - intros Hno.
    destruct (map_result (fun x => truediv64 x (10 ^ Z.of_N _precision)) xs)
      as [out|e] eqn:Hout.
    + exfalso. apply Hno. intros x Hx. apply map_result_ok in Hout.
      apply list_elem_of_In, list_elem_of_lookup in Hx as [i Hi].
      destruct (Forall2_lookup_l _ _ _ i x Hout Hi) as (q & _ & Hdiv).
      exact (truediv64_ok _ _ _ Hp Hdiv).
    + apply map_result_raise in Hout as (x & _ & Hdiv).
      now apply (truediv64_raise _ _ _ Hp) in Hdiv as [-> _].
Qed.

Lemma decode_delta_encoded_round_trip_witness :
  (forall x : Z, In x [100; 110; 105] -> fits x (10 ^ Z.of_N 2)) /\
  __decode_delta_encoded (H := Binary64 sample_average)
    (delta_encode [100; 110; 105]) 2
  = map_result (fun x => truediv64 x (10 ^ Z.of_N 2)) [100; 110; 105]
  /\ exists out : list spec_float,
      __decode_delta_encoded (H := Binary64 sample_average)
        (delta_encode [100; 110; 105]) 2 = Ok out
      /\ Forall2 (fun x q => truediv64 x (10 ^ Z.of_N 2) = Ok q) [100; 110; 105] out.
Proof.
  assert (forall x : Z, In x [100; 110; 105] -> fits x (10 ^ Z.of_N 2)) as Hfit.
  { intros x [<-|[<-|[<-|[]]]]; reflexivity. }
  split; [exact Hfit|].
  destruct (decode_delta_encoded_round_trip sample_average [100; 110; 105] 2)
    as (Hrun & Hreturns & _).
  split; [exact Hrun|exact (Hreturns Hfit)].
Defined.

(** ** The second loop of [__read_will_paths], record by record *)

Section AssemblyFurther.
Variable numpy_average : list spec_float -> spec_float.
Local Abbreviation B64 := (Binary64 numpy_average).


(** X13: a record written with as many widths as points, two or more,
    all of them in the range of a float, comes out with one point fewer
    than widths. *)
Theorem read_path_one_point_short (p : Path.t (H := B64)) (n : nat) :
  (2 <= n)%nat ->
  length (__read_packed_sint32 (Path.points p)) = (2 * n)%nat ->
  length (__read_packed_sint32 (Path.strokeWidths p)) = n ->
  points_fit (__read_packed_sint32 (Path.points p)) (Path.decimalPrecision p) n ->
  scalars_fit (__read_packed_sint32 (Path.strokeWidths p)) (Path.decimalPrecision p) ->
  exists d : _path_dict (H := B64),
    read_path p = Ok d
    /\ length (strokes d) = n
    /\ S (length (points d)) = n.
Proof.
  intros Hn Hpoints Hwidths Hpfit Hwfit.
  assert (length (__read_packed_sint32 (Path.points p)) / 2 = n)%nat as Hhalf.
  { rewrite Hpoints. replace (2 * n)%nat with (n * 2)%nat by lia.
    apply Nat.div_mul. lia. }
  destruct (__read_packed_sint32 (Path.points p)) as [|x [|y rest]] eqn:Hints;
    [simpl in Hpoints; lia..|].
  destruct (coordinates64_returns numpy_average x y rest (Path.decimalPrecision p))
    as (pts & Hpts & Hcount & _).
  { intros j Hj. apply Hpfit. lia. }
  rewrite Hhalf in Hcount.
  destruct (scalars64_returns numpy_average _ _ Hwfit) as (ws & Hws & Hwcount & _).
  rewrite Hwidths in Hwcount.
  eexists. split.
  - apply read_path_ok. exists pts, ws. rewrite Hints. now repeat split.
  - cbn [points strokes]. split; [exact Hwcount|].
    transitivity (S (S (n - 2))); [f_equal; exact Hcount|lia].
Qed.

End AssemblyFurther.

Lemma read_path_one_point_short_witness :
  (2 <= 3)%nat /\
  length (__read_packed_sint32 (Path.points sample_path_three_points)) = (2 * 3)%nat /\
  length (__read_packed_sint32 (Path.strokeWidths sample_path_three_points)) = 3%nat /\
  points_fit (__read_packed_sint32 (Path.points sample_path_three_points))
    (Path.decimalPrecision sample_path_three_points) 3 /\
  scalars_fit (__read_packed_sint32 (Path.strokeWidths sample_path_three_points))
    (Path.decimalPrecision sample_path_three_points) /\
  exists d : _path_dict (H := Binary64 sample_average),
    read_path sample_path_three_points = Ok d
    /\ length (strokes d) = 3%nat
    /\ S (length (points d)) = 3%nat.
Proof.
  assert (2 <= 3)%nat as Hn by lia.
  assert (length (__read_packed_sint32 (Path.points sample_path_three_points))
          = (2 * 3)%nat) as Hpoints by reflexivity.
  assert (length (__read_packed_sint32 (Path.strokeWidths sample_path_three_points))
          = 3%nat) as Hwidths by reflexivity.
  assert (points_fit (__read_packed_sint32 (Path.points sample_path_three_points))
            (Path.decimalPrecision sample_path_three_points) 3) as Hpfit
    by fit_by_cases.
  assert (scalars_fit (__read_packed_sint32 (Path.strokeWidths sample_path_three_points))
            (Path.decimalPrecision sample_path_three_points)) as Hwfit
    by fit_by_cases.
  split; [exact Hn|]. split; [exact Hpoints|]. split; [exact Hwidths|].
  split; [exact Hpfit|]. split; [exact Hwfit|].
  exact (read_path_one_point_short sample_average sample_path_three_points 3
           Hn Hpoints Hwidths Hpfit Hwfit).
Defined.
(** ** [__read_will_paths], the whole payload *)

Section WholePayload.
Context `{PyFloat}.
Variable parse_from_bytes : list byte -> result Path.t.

(** The loop over the sub-records, from the dicts [acc] collected so
    far. *)
Lemma read_will_paths_loop (recs : list (list byte)) :
  forall acc out : list _path_dict,
    for_each (fun ret_paths _pth =>
                p ← parse_from_bytes _pth;
                _path_dict ← read_path p;
                Ok (ret_paths ++ [_path_dict])) recs acc = Ok out
    <-> exists ds : list _path_dict,
          out = acc ++ ds /\ Forall2 (assembles parse_from_bytes) recs ds.
Proof.
  induction recs as [|r recs IH]; intros acc out.
  - cbn [for_each]. split.
    + intros [= <-]. exists []. rewrite app_nil_r. split; [reflexivity|constructor].
    + intros (ds & -> & Hds). apply Forall2_nil_inv_l in Hds as ->.
      now rewrite app_nil_r.
  - cbn [for_each].
    destruct (parse_from_bytes r) as [p|e] eqn:Hparse; cbn [mbind result_bind].
    + destruct (read_path p) as [d|e] eqn:Hread; cbn [mbind result_bind].
      * rewrite IH. split.
        -- intros (ds & -> & Hds). exists (d :: ds). rewrite <- app_assoc.
           split; [reflexivity|]. constructor; [now exists p|exact Hds].
        -- intros (ds & -> & Hds).
           apply Forall2_cons_inv_l in Hds as (d' & ds' & (p' & Hp' & Hd') & Hds' & ->).
           rewrite Hparse in Hp'. injection Hp' as <-.
           rewrite Hread in Hd'. injection Hd' as <-.
           exists ds'. now rewrite <- app_assoc.
      * split; [discriminate|]. intros (ds & _ & Hds).
        apply Forall2_cons_inv_l in Hds as (d' & ds' & (p' & Hp' & Hd') & _ & _).
        rewrite Hparse in Hp'. injection Hp' as <-. congruence.
    + split; [discriminate|]. intros (ds & _ & Hds).
      apply Forall2_cons_inv_l in Hds as (d' & ds' & (p' & Hp' & _) & _ & _).
      congruence.
Qed.

(** X11: the payload gives dicts exactly when every sub-record of the
    framing parses and assembles, and then one dict for each sub-record,
    in the order of the payload. *)
Theorem read_will_paths_ok (payload : list byte) :
  exists recs : list (list byte),
    frame payload = Ok recs
    /\ forall ds : list _path_dict,
        __read_will_paths parse_from_bytes payload = Ok ds
        <-> Forall2 (assembles parse_from_bytes) recs ds.
Proof.
  destruct (frame_total payload) as [recs Hrecs].
  exists recs. split; [exact Hrecs|]. intros ds.
  unfold __read_will_paths. rewrite Hrecs. cbn [mbind result_bind].
  rewrite read_will_paths_loop. cbn [app]. split.
  - now intros (ds' & -> & Hds).
  - intros Hds. now exists ds.
Qed.

(** X12: the first sub-record that does not parse, or whose record is
    refused, ends the call with its exception; the dicts of the
    sub-records before it are not returned, and those behind it are not
    looked at. *)
Theorem read_will_paths_first_failure (payload : list byte)
    (good rest : list (list byte)) (bad : list byte)
    (ds : list _path_dict) (e : exn) :
  frame payload = Ok (good ++ bad :: rest) ->
  Forall2 (assembles parse_from_bytes) good ds ->
  parse_from_bytes bad = Raise e
  \/ (exists p : Path.t, parse_from_bytes bad = Ok p /\ read_path p = Raise e) ->
  __read_will_paths parse_from_bytes payload = Raise e.
Proof.
  intros Hframe Hgood Hbad. unfold __read_will_paths.
  rewrite Hframe. cbn [mbind result_bind].
  rewrite for_each_app.
  assert (for_each (fun ret_paths _pth =>
                      p ← parse_from_bytes _pth;
                      _path_dict ← read_path p;
                      Ok (ret_paths ++ [_path_dict])) good [] = Ok ds) as ->
    by (apply read_will_paths_loop; now exists ds).
  cbn [mbind result_bind for_each].
  destruct Hbad as [->|(p & -> & Hread)]; cbn [mbind result_bind].
  - reflexivity.
  - now rewrite Hread.
Qed.

End WholePayload.


Lemma read_will_paths_first_failure_witness :
  frame [x02; x02; x04; x00; x01; x02] = Ok ([[x02; x04]] ++ [] :: [[x02]]) /\
  Forall2 (assembles sample_parse) [[x02; x04]]
    [{| points := [(S754_finite false 5764607523034235 (-59),
                    S754_finite false 5764607523034235 (-58))];
        strokes := [S754_finite false 4503599627370496 (-52)];
        avg_width := average [S754_finite false 4503599627370496 (-52)];
        color := [] |}] /\
  (sample_parse [] = Raise ParseError
   \/ (exists p : Path.t, sample_parse [] = Ok p /\ read_path p = Raise ParseError)) /\
  __read_will_paths sample_parse [x02; x02; x04; x00; x01; x02] = Raise ParseError.
Proof.
  assert (frame [x02; x02; x04; x00; x01; x02] = Ok ([[x02; x04]] ++ [] :: [[x02]]))
    as Hframe by reflexivity.
  assert (Forall2 (assembles sample_parse) [[x02; x04]]
            [{| points := [(S754_finite false 5764607523034235 (-59),
                            S754_finite false 5764607523034235 (-58))];
                strokes := [S754_finite false 4503599627370496 (-52)];
                avg_width := average [S754_finite false 4503599627370496 (-52)];
                color := [] |}]) as Hgood
    by (repeat constructor; eexists; split; reflexivity).
  assert (sample_parse [] = Raise ParseError
          \/ (exists p : Path.t,
                 sample_parse [] = Ok p /\ read_path p = Raise ParseError))
    as Hbad by (left; reflexivity).
  split; [exact Hframe|]. split; [exact Hgood|]. split; [exact Hbad|].
  apply (read_will_paths_first_failure sample_parse _ _ _ _ _ _ Hframe Hgood Hbad).
Defined.

(** ** The writers *)

Lemma string_app_assoc (a b c : string) : (a +:+ b) +:+ c = a +:+ (b +:+ c).
Proof.
  induction a as [|ch a IH]; [reflexivity|].
  change (String ch ((a +:+ b) +:+ c) = String ch (a +:+ (b +:+ c))).
  now f_equal.
Qed.

Lemma string_app_nil_r (a : string) : a +:+ "" = a.
Proof.
  induction a as [|ch a IH]; [reflexivity|].
  change (String ch (a +:+ "") = String ch a). now f_equal.
Qed.

Section WritersProperties.
Context `{PyFloat}.
Variable str : float -> string.
Variable str_himetric : float -> string.
Variable str_milli : float -> string.

Lemma svg_path_run (_points : list (float * float)) :
  forall _data : string,
    fst (fold_left (svg_path_step str) _points (_data, false))
    = _data +:+ fold_right String.append ""
                  (map (fun p => " L" +:+ str (fst p) +:+ " " +:+ str (snd p)) _points).
Proof.
  induction _points as [|p ps IH]; intros _data.
  - simpl. now rewrite string_app_nil_r.
  - cbn [fold_left svg_path_step map fold_right]. rewrite IH.
    now rewrite !string_app_assoc.
Qed.

(** X14: the data of an SVG path is empty for no points; otherwise it is
    one [M] command, for the first point, and one [L] command for each
    point behind it, in order. *)
Theorem svg_path_data_commands (_points : list (float * float)) :
  svg_path_data str _points =
  match _points with
  | [] => ""
  | p :: ps =>
      ("M" +:+ str (fst p) +:+ " " +:+ str (snd p))
      +:+ fold_right String.append ""
            (map (fun q => " L" +:+ str (fst q) +:+ " " +:+ str (snd q)) ps)
  end.
Proof.
  destruct _points as [|p ps]; [reflexivity|].
  unfold svg_path_data. cbn [fold_left svg_path_step].
  rewrite svg_path_run. cbn [String.append]. now rewrite !string_app_assoc.
Qed.



Lemma svg_page_run (use_polyline : bool) (_paths : list _path_dict) :
  forall p_dict : Svg.t,
    fold_left (svg_page_step str use_polyline) _paths p_dict =
    {| Svg.width := Svg.width p_dict;
       Svg.height := Svg.height p_dict;
       Svg.polyline :=
         Svg.polyline p_dict
         ++ (if use_polyline then map (pth_dict str true) _paths else []);
       Svg.path :=
         Svg.path p_dict
         ++ (if use_polyline then [] else map (pth_dict str false) _paths) |}.
Proof.
  induction _paths as [|pth _paths IH]; intros p_dict.
  - destruct p_dict, use_polyline; simpl; now rewrite !app_nil_r.
  - cbn [fold_left]. rewrite IH.
    destruct use_polyline; cbn [svg_page_step Svg.width Svg.height Svg.polyline Svg.path map];
      now rewrite <- app_assoc.
Qed.

Lemma svg_run (_fname : string) (use_polyline : bool) (pages : list Page.t) :
  forall (__page_n : nat) (files : list (string * Svg.t)),
    fold_left (svg_step str _fname use_polyline) pages (__page_n, files) =
    ((__page_n + length pages)%nat,
     files ++ imap (fun k page =>
                      ((_fname +:+ str_nat (__page_n + k)) +:+ ".svg",
                       {| Svg.width := Page.width page;
                          Svg.height := Page.height page;
                          Svg.polyline :=
                            if use_polyline
                            then map (pth_dict str true) (Page.paths page) else [];
                          Svg.path :=
                            if use_polyline
                            then [] else map (pth_dict str false) (Page.paths page) |}))
                   pages).
Proof.
  induction pages as [|page pages IH]; intros __page_n files.
  - simpl. now rewrite Nat.add_0_r, app_nil_r.
  - cbn [fold_left svg_step]. rewrite IH, svg_page_run.
    cbn [Svg.width Svg.height Svg.polyline Svg.path app length].
    rewrite imap_cons, Nat.add_0_r, <- app_assoc. cbn [app].
    f_equal; [lia|]. do 2 f_equal.
    apply imap_ext. intros k pg _. cbn. now rewrite Nat.add_succ_r.
Qed.

(** X16: [save_as_svg] writes one file for each page, numbered from 0 in
    the order of the pages, and the file of a page holds the strokes of
    that page alone, in order: all of them under ["polyline"] and none
    under ["path"] with [use_polyline], the other way round without. *)
Theorem save_as_svg_files (_fname : string) (use_polyline : bool)
    (pages : list Page.t) :
  save_as_svg str _fname use_polyline pages =
  imap (fun k page =>
          ((_fname +:+ str_nat k) +:+ ".svg",
           {| Svg.width := Page.width page;
              Svg.height := Page.height page;
              Svg.polyline :=
                if use_polyline
                then map (pth_dict str true) (Page.paths page) else [];
              Svg.path :=
                if use_polyline
                then [] else map (pth_dict str false) (Page.paths page) |}))
       pages.
Proof.
  unfold save_as_svg. rewrite svg_run. reflexivity.
Qed.




End WritersProperties.
